(** * dashGPT backend: rate limiter and streaming chat relay

    A shallow embedding of [middleware/middleware.go] (the in-memory rate
    limiter), of the wiring of the three limiters in [main.go], and of
    [handlers/chat.go] (the relay handler, the upstream stream reader, the
    history endpoint and the title derivation), with the properties the
    specification states about them. *)

From Stdlib Require Import ZArith String Ascii List Bool Lia DecimalString.
From stdpp Require Import gmap strings list pretty sorting.

Open Scope string_scope.
Open Scope Z_scope.

(** ** middleware/middleware.go : RateLimiter *)

Module Middleware.

(** [type visitor struct { lastSeen time.Time; count int }].  Instants and
    durations are nanosecond counts.  [count] is a Go [int]; lemma
    [count_bounded] below shows that it stays between 1 and the configured
    limit, so the increment never reaches the end of the machine range and
    is written without a wrap. *)
Record visitor : Type := Visitor { lastSeen : Z; count : Z }.

(** [time.Since(t)] read at the instant [now]. *)
Definition since (now t : Z) : Z := now - t.

(** The body of the handler returned by [RateLimiter(requestsPerWindow,
    window)], run under [mu.Lock()] at the instant [now] for the request of
    [ip].  The package-level map [visitors] is threaded as state; the
    boolean tells whether [next.ServeHTTP] is called ([true]) or the 429
    response is written ([false]).  The clock readings of [time.Since] and
    [time.Now] within one locked section are taken as the one instant
    [now]. *)
Definition RateLimiter (requestsPerWindow window : Z) (now : Z) (ip : string)
    (visitors : gmap string visitor) : gmap string visitor * bool :=
  match visitors !! ip with
  | None => (<[ip := Visitor now 1]> visitors, true)
  | Some v =>
      if window <? since now (lastSeen v) then
        (<[ip := Visitor now 1]> visitors, true)
      else if requestsPerWindow <=? count v then
        (visitors, false)
      else
        (<[ip := Visitor now (count v + 1)]> visitors, true)
  end.

(** One tick of the cleanup goroutine started by [RateLimiter]: every
    record with [time.Since(v.lastSeen) > window] is deleted. *)
Definition cleanup (window : Z) (now : Z)
    (visitors : gmap string visitor) : gmap string visitor :=
  filter (fun kv => ¬ (window < since now (lastSeen kv.2))) visitors.

(** What happens to the shared map, in the order the mutex serialises it. *)
Inductive event : Type :=
  | Request (ip : string)
  | Tick.

(** Runs a trace of timed events of one limiter; the log holds, in order,
    the key and the outcome of each request. *)
Fixpoint run (limit window : Z) (tr : list (Z * event))
    (visitors : gmap string visitor)
    : gmap string visitor * list (string * bool) :=
  match tr with
  | [] => (visitors, [])
  | (now, Request ip) :: tr' =>
      let '(vs1, ok) := RateLimiter limit window now ip visitors in
      let '(vs2, log) := run limit window tr' vs1 in
      (vs2, (ip, ok) :: log)
  | (now, Tick) :: tr' => run limit window tr' (cleanup window now visitors)
  end.

(** The outcomes of the requests of [ip], in order. *)
Definition outcomes (ip : string) (log : list (string * bool)) : list bool :=
  map snd (List.filter (fun p => bool_decide (p.1 = ip)) log).

(** The number of requests of [ip] in a trace. *)
Fixpoint requests_of (ip : string) (tr : list (Z * event)) : nat :=
  match tr with
  | [] => 0%nat
  | (_, Request ip') :: tr' =>
      if bool_decide (ip' = ip) then S (requests_of ip tr') else requests_of ip tr'
  | (_, Tick) :: tr' => requests_of ip tr'
  end.

(** All events of the trace fall in one window: no two instants are more
    than [window] apart. *)
Definition within_window (window : Z) (tr : list (Z * event)) : Prop :=
  ∀ t t', In t (map fst tr) → In t' (map fst tr) → t' - t <= window.

(** The record of a client that has not been seen during the window the
    trace lies in: none, or one last seen more than [window] before every
    instant of the trace. *)
Definition fresh (window : Z) (tr : list (Z * event)) (o : option visitor) : Prop :=
  match o with
  | None => True
  | Some v => ∀ t, In t (map fst tr) → window < since t (lastSeen v)
  end.

(** How many more requests of a client are admitted during the window the
    trace lies in, read off the client's record. *)
Inductive budget (limit window : Z) (tr : list (Z * event))
    : option visitor → nat → Prop :=
  | budget_fresh o :
      fresh window tr o → budget limit window tr o (Z.to_nat limit)
  | budget_active v :
      1 <= count v <= limit →
      (∀ t, In t (map fst tr) → since t (lastSeen v) <= window) →
      budget limit window tr (Some v) (Z.to_nat (limit - count v)).

(** ** main.go : the three route classes *)

Inductive route : Type := Auth | Dashboard | Chat.

Definition minute : Z := 60 * 1000000000.

(** [middleware.RateLimiter(5, time.Minute)], [(60, time.Minute)] and
    [(20, time.Minute)]. *)
Definition route_limit (r : route) : Z :=
  match r with Auth => 5 | Dashboard => 60 | Chat => 20 end.

Definition route_window (r : route) : Z := minute.

(** The limiter mounted on a route class.  All three closures read and
    write the same package-level [visitors]. *)
Definition limiter (r : route) (now : Z) (ip : string)
    (visitors : gmap string visitor) : gmap string visitor * bool :=
  RateLimiter (route_limit r) (route_window r) now ip visitors.

(** Requests of one client through several route classes, in order. *)
Fixpoint serve (rs : list (route * Z)) (ip : string)
    (visitors : gmap string visitor) : gmap string visitor * list bool :=
  match rs with
  | [] => (visitors, [])
  | (r, now) :: rs' =>
      let '(vs1, ok) := limiter r now ip visitors in
      let '(vs2, oks) := serve rs' ip vs1 in
      (vs2, ok :: oks)
  end.

End Middleware.

(** ** The Go library functions the handlers call *)

(** A decoded JSON value ([interface{}] as [encoding/json] fills it). *)
#[warnings="-register-all"]
Inductive JSON : Type :=
  | JNull
  | JBool (b : bool)
  | JNumber (digits : string)
  | JString (s : string)
  | JArray (elems : list JSON)
  | JObject (members : list (string * JSON)).

(** [strings.TrimSpace] and [json.Unmarshal] into a
    [map[string]interface{}] are library code: the handlers are embedded
    over any implementation of them.  [jsonUnmarshal] returns the members in
    source order ([None] is a non-nil error); reading a key takes the last
    member of that name, as a Go map filled in source order does. *)
Class GoLib : Type := {
  TrimSpace : string → string;
  jsonUnmarshal : string → option (list (string * JSON))
}.

(** [m[key]] on a decoded object: the last member named [key]. *)
Fixpoint member (key : string) (m : list (string * JSON)) : option JSON :=
  match m with
  | [] => None
  | (k, v) :: m' =>
      match member key m' with
      | Some v' => Some v'
      | None => if String.eqb k key then Some v else None
      end
  end.

(** [strings.HasPrefix(s, p)] and [strings.TrimPrefix(s, p)]. *)
Definition HasPrefix (s p : string) : bool := String.prefix p s.

Definition TrimPrefix (s p : string) : string :=
  if HasPrefix s p then String.substring (String.length p) (String.length s - String.length p) s
  else s.

Definition newline : ascii := Ascii.ascii_of_nat 10.

(** [strings.Split(s, "\n")]: one more piece than there are newlines. *)
Fixpoint Split (s : string) : list string :=
  match s with
  | EmptyString => [EmptyString]
  | String c s' =>
      if Ascii.eqb c newline then EmptyString :: Split s'
      else match Split s' with
           | piece :: pieces => String c piece :: pieces
           | [] => [String c EmptyString]
           end
  end.

(** ** models/models.go and the relational store *)

Module Models.

(** [models.Conversation] and [models.Message], one record per row. *)
Record Conversation : Type := {
  conv_ID : string;
  conv_UserID : string;
  conv_Title : string;
  conv_CreatedAt : Z;
  conv_UpdatedAt : Z
}.

Record Message : Type := {
  msg_ID : string;
  msg_ConversationID : string;
  msg_Role : string;
  msg_Content : string;
  msg_CreatedAt : Z
}.

(** The tables created by [RunMigrations], rows in insertion order.
    [serial] stands for [gen_random_uuid()] (the next identifier to hand
    out) and [clock] for [CURRENT_TIMESTAMP], which moves on with every
    statement that writes. *)
Record DB : Type := {
  users : list string;
  conversations : list Conversation;
  messages : list Message;
  serial : nat;
  clock : Z
}.

(** The identifier [gen_random_uuid()] yields for a serial number. *)
Definition uuid (n : nat) : string := "id-" +:+ pretty n.

(** [INSERT INTO conversations (user_id, title) VALUES ($1, $2) RETURNING
    id].  [user_id] references [users(id)].  [fail] is a failure of the
    statement for reasons outside the schema (connection lost, ...). *)
Definition insertConversation (fail : bool) (userID title : string) (db : DB)
    : option (string * DB) :=
  if fail then None
  else if bool_decide (userID ∈ users db) then
    let id := uuid (serial db) in
    Some (id, {| users := users db;
                 conversations := conversations db ++
                   [{| conv_ID := id; conv_UserID := userID; conv_Title := title;
                       conv_CreatedAt := clock db; conv_UpdatedAt := clock db |}];
                 messages := messages db;
                 serial := S (serial db);
                 clock := clock db + 1 |})
  else None.

(** [INSERT INTO messages (conversation_id, role, content) VALUES ($1, $2,
    $3)].  [conversation_id] references [conversations(id)]. *)
Definition insertMessage (fail : bool) (conversationID role content : string)
    (db : DB) : option DB :=
  if fail then None
  else if existsb (fun c => String.eqb (conv_ID c) conversationID) (conversations db) then
    Some {| users := users db;
            conversations := conversations db;
            messages := messages db ++
              [{| msg_ID := uuid (serial db); msg_ConversationID := conversationID;
                  msg_Role := role; msg_Content := content;
                  msg_CreatedAt := clock db |}];
            serial := S (serial db);
            clock := clock db + 1 |}
  else None.

(** [UPDATE conversations SET updated_at = CURRENT_TIMESTAMP WHERE id = $1].
    The handler drops the error of this statement; a failed statement
    changes nothing. *)
Definition touchConversation (fail : bool) (conversationID : string) (db : DB) : DB :=
  if fail then db
  else {| users := users db;
          conversations :=
            map (fun c => if String.eqb (conv_ID c) conversationID
                          then {| conv_ID := conv_ID c; conv_UserID := conv_UserID c;
                                  conv_Title := conv_Title c;
                                  conv_CreatedAt := conv_CreatedAt c;
                                  conv_UpdatedAt := clock db |}
                          else c) (conversations db);
          messages := messages db;
          serial := serial db;
          clock := clock db + 1 |}.

(** [ORDER BY created_at ASC], rows of equal time in insertion order. *)
Fixpoint insertByCreatedAt (m : Message) (l : list Message) : list Message :=
  match l with
  | [] => [m]
  | m' :: l' =>
      if msg_CreatedAt m <? msg_CreatedAt m' then m :: l
      else m' :: insertByCreatedAt m l'
  end.

Definition orderByCreatedAt (l : list Message) : list Message :=
  fold_left (fun sorted m => insertByCreatedAt m sorted) l [].

(** [SELECT id, role, content, created_at FROM messages WHERE
    conversation_id = $1 ORDER BY created_at ASC]. *)
Definition selectMessages (fail : bool) (conversationID : string) (db : DB)
    : option (list Message) :=
  if fail then None
  else Some (orderByCreatedAt
               (List.filter (fun m => String.eqb (msg_ConversationID m) conversationID)
                  (messages db))).

(** [SELECT EXISTS(SELECT 1 FROM conversations WHERE id = $1 AND user_id =
    $2)]. *)
Definition existsConversation (fail : bool) (conversationID userID : string)
    (db : DB) : option bool :=
  if fail then None
  else Some (existsb (fun c => String.eqb (conv_ID c) conversationID &&
                               String.eqb (conv_UserID c) userID)
               (conversations db)).

End Models.

(** ** handlers/chat.go *)

Module Handlers.
Import Models.

Record ChatRequest : Type := {
  req_Message : string;
  req_ConversationID : string
}.

Record ClaudeMessage : Type := { cm_Role : string; cm_Content : string }.

Record ClaudeRequest : Type := {
  Model : string;
  MaxTokens : Z;
  Messages : list ClaudeMessage;
  Stream : bool;
  Temperature : string
}.

Record StreamEvent : Type := {
  ev_Type : string;
  ev_Text : string;
  ev_ConversationID : string
}.

(** [json.Marshal(event)]: the members of the JSON object in field order,
    values before string escaping.  [text] and [conversationId] are tagged
    [omitempty]. *)
Definition marshalStreamEvent (event : StreamEvent) : list (string * string) :=
  [("type", ev_Type event)]
  ++ (if String.eqb (ev_Text event) EmptyString then [] else [("text", ev_Text event)])
  ++ (if String.eqb (ev_ConversationID event) EmptyString then []
      else [("conversationId", ev_ConversationID event)]).

Definition formatStreamEvent (eventType text conversationID : string)
    : list (string * string) :=
  marshalStreamEvent
    {| ev_Type := eventType; ev_Text := text; ev_ConversationID := conversationID |}.

(** The body [{"error":"<msg>"}] that the handlers pass to [http.Error]. *)
Definition errorBody (msg : string) : string :=
  let q := String (Ascii.ascii_of_nat 34) EmptyString in
  "{" ++ q ++ "error" ++ q ++ ":" ++ q ++ msg ++ q ++ "}".

(** The value of a member of a marshalled event, when present. *)
Fixpoint field (key : string) (frame : list (string * string)) : option string :=
  match frame with
  | [] => None
  | (k, v) :: frame' => if String.eqb k key then Some v else field key frame'
  end.

(** The title [createConversation] stores: [len] and the slice count bytes. *)
Definition conversationTitle (firstMessage : string) : string :=
  let title := firstMessage in
  if (50 <? String.length title)%nat then String.substring 0 47 title ++ "..."
  else title.

(** Statement failures decided outside the program, one flag per
    statement of the handlers. *)
Record Faults : Type := {
  failCreate : bool;
  failSaveUser : bool;
  failHistory : bool;
  failSaveAssistant : bool;
  failTouch : bool;
  failExists : bool
}.

Definition noFaults : Faults :=
  {| failCreate := false; failSaveUser := false; failHistory := false;
     failSaveAssistant := false; failTouch := false; failExists := false |}.

Definition createConversation (fail : bool) (userID firstMessage : string) (db : DB)
    : option (string * DB) :=
  insertConversation fail userID (conversationTitle firstMessage) db.

(** Rows whose [Scan] fails are skipped by the source; every column read
    here is written by the statements above, so no row is skipped. *)
Definition getConversationMessages (fail : bool) (conversationID : string) (db : DB)
    : option (list Message) :=
  selectMessages fail conversationID db.

(** The reply of the upstream API.  [reader.Read(buffer)] yields, call
    after call, some bytes and possibly an error; once the listed reads are
    used up it yields no bytes and [io.EOF]. *)
Inductive readError : Type := EOF | Broken (msg : string).

Inductive Upstream : Type :=
  | DoError (msg : string)
  | Reply (StatusCode : Z) (Body : list (string * option readError)).

(** [io.ReadAll(resp.Body)], its error dropped. *)
Fixpoint ReadAll (body : list (string * option readError)) : string :=
  match body with
  | [] => EmptyString
  | (chunk, None) :: body' => chunk ++ ReadAll body'
  | (chunk, Some _) :: _ => chunk
  end.

(** Lines 230-232: the text of a [content_block_delta] frame. *)
Definition deltaText (streamResp : list (string * JSON)) : option string :=
  match member "type" streamResp with
  | Some (JString ty) =>
      if String.eqb ty "content_block_delta" then
        match member "delta" streamResp with
        | Some (JObject delta) =>
            match member "text" delta with
            | Some (JString text) => Some text
            | _ => None
            end
        | _ => None
        end
      else None
  | _ => None
  end.

Section Relay.
Context `{lib : GoLib}.

(** The loop [for _, line := range lines] over the lines of one chunk.
    [fullResponse] is the [strings.Builder], [w] the frames written to the
    client so far (each as [data: <json>] and a blank line, then flushed).
    The [break] on the sentinel leaves this loop. *)
Fixpoint scanLines (lines : list string) (fullResponse : string)
    (w : list (list (string * string))) : string * list (list (string * string)) :=
  match lines with
  | [] => (fullResponse, w)
  | line :: lines' =>
      let line := TrimSpace line in
      if negb (HasPrefix line "data: ") then scanLines lines' fullResponse w
      else
        let data := TrimPrefix line "data: " in
        if String.eqb data "[DONE]" then (fullResponse, w)
        else
          match jsonUnmarshal data with
          | None => scanLines lines' fullResponse w
          | Some streamResp =>
              match deltaText streamResp with
              | Some text =>
                  scanLines lines' (fullResponse ++ text)
                    (w ++ [formatStreamEvent "content" text EmptyString])
              | None => scanLines lines' fullResponse w
              end
          end
  end.

(** The loop [for { n, err := reader.Read(buffer) ... }]: the accumulated
    text, the frames written, and the error returned ([None] is [nil]). *)
Fixpoint readLoop (body : list (string * option readError)) (fullResponse : string)
    (w : list (list (string * string)))
    : string * option string * list (list (string * string)) :=
  match body with
  | [] => (fullResponse, None, w)
  | (chunk, err) :: body' =>
      let '(fullResponse1, w1) :=
        if (0 <? String.length chunk)%nat then scanLines (Split chunk) fullResponse w
        else (fullResponse, w) in
      match err with
      | None => readLoop body' fullResponse1 w1
      | Some EOF => (fullResponse1, None, w1)
      | Some (Broken msg) => (fullResponse1, Some msg, w1)
      end
  end.

Definition streamClaudeResponse (w : list (list (string * string)))
    (reply : Upstream) : string * option string * list (list (string * string)) :=
  match reply with
  | DoError msg => (EmptyString, Some msg, w)
  | Reply StatusCode Body =>
      if negb (StatusCode =? 200) then
        (EmptyString, Some ("Claude API error: " ++ ReadAll Body), w)
      else readLoop Body EmptyString w
  end.

(** The error [streamClaudeResponse] returns for a reply. *)
Definition upstreamError (reply : Upstream) : option string :=
  (streamClaudeResponse [] reply).1.2.

(** What the client receives. *)
Inductive Response : Type :=
  | HttpError (body : string) (status : Z)
  | EventStream (frames : list (list (string * string)))
  | JsonMessages (messages : list Message).

Definition claudeRequest (messages : list Message) : ClaudeRequest :=
  {| Model := "claude-sonnet-4-20250514";
     MaxTokens := 4096;
     Messages := map (fun msg => {| cm_Role := msg_Role msg; cm_Content := msg_Content msg |})
                   messages;
     Stream := true;
     Temperature := "0.7" |}.

(** [SendMessage].  [userID] is [GetUserID(r)] (empty when the context has
    none), [body] the decoded request body ([None] when decoding fails),
    [upstream] the API's reply to a request. *)
Definition SendMessage (userID : string) (body : option ChatRequest)
    (upstream : ClaudeRequest → Upstream) (faults : Faults) (db : DB)
    : DB * Response :=
  if String.eqb userID EmptyString then (db, HttpError (errorBody "Unauthorized") 401)
  else
  match body with
  | None => (db, HttpError (errorBody "Invalid request body") 400)
  | Some req =>
  if String.eqb (req_Message req) EmptyString then
    (db, HttpError (errorBody "Message is required") 400)
  else
  let created :=
    if String.eqb (req_ConversationID req) EmptyString then
      createConversation (failCreate faults) userID (req_Message req) db
    else Some (req_ConversationID req, db) in
  match created with
  | None => (db, HttpError (errorBody "Error creating conversation") 500)
  | Some (conversationID, db1) =>
  match insertMessage (failSaveUser faults) conversationID "user" (req_Message req) db1 with
  | None => (db1, HttpError (errorBody "Error saving message") 500)
  | Some db2 =>
  match getConversationMessages (failHistory faults) conversationID db2 with
  | None => (db2, HttpError (errorBody "Error fetching conversation history") 500)
  | Some messages =>
  let claudeReq := claudeRequest messages in
  let w := [formatStreamEvent "start" EmptyString conversationID] in
  let '(assistantResponse, err, w1) := streamClaudeResponse w (upstream claudeReq) in
  match err with
  | Some msg => (db2, EventStream (w1 ++ [formatStreamEvent "error" msg conversationID]))
  | None =>
  match insertMessage (failSaveAssistant faults) conversationID "assistant"
          assistantResponse db2 with
  | None =>
      (db2, EventStream (w1 ++ [formatStreamEvent "error" "Error saving response"
                                  conversationID]))
  | Some db3 =>
      let db4 := touchConversation (failTouch faults) conversationID db3 in
      (db4, EventStream (w1 ++ [formatStreamEvent "end" EmptyString conversationID]))
  end end end end end end.

(** [GetHistory], with [conversationID] the query parameter (empty when
    absent). *)
Definition GetHistory (userID conversationID : string) (faults : Faults) (db : DB)
    : Response :=
  if String.eqb userID EmptyString then HttpError (errorBody "Unauthorized") 401
  else if String.eqb conversationID EmptyString then
    HttpError (errorBody "conversationId is required") 400
  else
    match existsConversation (failExists faults) conversationID userID db with
    | None | Some false => HttpError (errorBody "Conversation not found") 404
    | Some true =>
        match getConversationMessages (failHistory faults) conversationID db with
        | None => HttpError (errorBody "Error fetching messages") 500
        | Some messages => JsonMessages messages
        end
    end.

End Relay.

(** *** Reading the frames a client received *)

Definition startFrame (conv : string) : list (string * string) :=
  formatStreamEvent "start" EmptyString conv.

Definition contentFrame (text : string) : list (string * string) :=
  formatStreamEvent "content" text EmptyString.

Definition endFrame (conv : string) : list (string * string) :=
  formatStreamEvent "end" EmptyString conv.

Definition errorFrame (msg conv : string) : list (string * string) :=
  formatStreamEvent "error" msg conv.

(** The text a [content] frame forwards; an omitted [text] member is the
    empty text. *)
Definition contentText (frame : list (string * string)) : option string :=
  match field "type" frame with
  | Some ty =>
      if String.eqb ty "content" then
        Some (match field "text" frame with Some text => text | None => EmptyString end)
      else None
  | None => None
  end.

Definition concatText (texts : list string) : string :=
  fold_right String.append EmptyString texts.

(** The texts of the [content] frames, concatenated in emission order. *)
Definition forwardedText (frames : list (list (string * string))) : string :=
  concatText (omap contentText frames).

Definition framesOf (r : Response) : list (list (string * string)) :=
  match r with EventStream frames => frames | _ => [] end.


End Handlers.

(** ** The library functions on ASCII input

    An implementation of [GoLib] to run the handlers on concrete input.
    [asciiTrimSpace] is [strings.TrimSpace] on strings without bytes above
    127; [decodeObject] is [json.Unmarshal] into a map on the part of JSON
    made of objects, arrays, strings with the two-character escapes,
    integers and the three literals. *)

Module Ascii7.

Definition isSpace (c : ascii) : bool :=
  let n := Ascii.nat_of_ascii c in
  ((n =? 32) || ((9 <=? n) && (n <=? 13)))%nat.

Fixpoint trimLeft (s : string) : string :=
  match s with
  | EmptyString => EmptyString
  | String c s' => if isSpace c then trimLeft s' else s
  end.

Fixpoint trimRight (s : string) : string :=
  match s with
  | EmptyString => EmptyString
  | String c s' =>
      match trimRight s' with
      | EmptyString => if isSpace c then EmptyString else String c EmptyString
      | t => String c t
      end
  end.

Definition asciiTrimSpace (s : string) : string := trimRight (trimLeft s).

(** JSON white space: space, tab, line feed, carriage return. *)
Definition jsonSpace (c : ascii) : bool :=
  let n := Ascii.nat_of_ascii c in
  ((n =? 32) || (n =? 9) || (n =? 10) || (n =? 13))%nat.

Fixpoint skipSpace (s : string) : string :=
  match s with
  | EmptyString => EmptyString
  | String c s' => if jsonSpace c then skipSpace s' else s
  end.

Definition unescape (c : ascii) : option ascii :=
  let n := Ascii.nat_of_ascii c in
  if (n =? 34)%nat then Some c                              (* quote *)
  else if (n =? 92)%nat then Some c                         (* backslash *)
  else if (n =? 47)%nat then Some c                         (* slash *)
  else if (n =? 98)%nat then Some (Ascii.ascii_of_nat 8)    (* b *)
  else if (n =? 102)%nat then Some (Ascii.ascii_of_nat 12)  (* f *)
  else if (n =? 110)%nat then Some (Ascii.ascii_of_nat 10)  (* n *)
  else if (n =? 114)%nat then Some (Ascii.ascii_of_nat 13)  (* r *)
  else if (n =? 116)%nat then Some (Ascii.ascii_of_nat 9)   (* t *)
  else None.

(** The rest of a string literal, after its opening quote: the decoded
    text and what follows the closing quote. *)
Fixpoint stringBody (s : string) : option (string * string) :=
  match s with
  | EmptyString => None
  | String c r =>
      let n := Ascii.nat_of_ascii c in
      if (n =? 34)%nat then Some (EmptyString, r)
      else if (n =? 92)%nat then
        match r with
        | EmptyString => None
        | String e r' =>
            match unescape e, stringBody r' with
            | Some ch, Some (text, rest) => Some (String ch text, rest)
            | _, _ => None
            end
        end
      else if (n <? 32)%nat || (127 <? n)%nat then None
      else
        match stringBody r with
        | Some (text, rest) => Some (String c text, rest)
        | None => None
        end
  end.

Definition isDigit (c : ascii) : bool :=
  let n := Ascii.nat_of_ascii c in ((48 <=? n) && (n <=? 57))%nat.

Fixpoint digits (s : string) : string * string :=
  match s with
  | EmptyString => (EmptyString, EmptyString)
  | String c r =>
      if isDigit c then let '(d, rest) := digits r in (String c d, rest)
      else (EmptyString, s)
  end.

(** A value, the members of an object after its brace, the elements of an
    array after its bracket.  [fuel] bounds the nesting and the number of
    members; the length of the input is enough. *)
Fixpoint value (fuel : nat) (s : string) : option (JSON * string) :=
  match fuel with
  | O => None
  | S fuel' =>
      match skipSpace s with
      | EmptyString => None
      | String c r =>
          let n := Ascii.nat_of_ascii c in
          if (n =? 123)%nat then
            match skipSpace r with
            | String c' r' =>
                if (Ascii.nat_of_ascii c' =? 125)%nat then Some (JObject [], r')
                else match members fuel' r with
                     | Some (m, rest) => Some (JObject m, rest)
                     | None => None
                     end
            | EmptyString => None
            end
          else if (n =? 91)%nat then
            match skipSpace r with
            | String c' r' =>
                if (Ascii.nat_of_ascii c' =? 93)%nat then Some (JArray [], r')
                else match elements fuel' r with
                     | Some (l, rest) => Some (JArray l, rest)
                     | None => None
                     end
            | EmptyString => None
            end
          else if (n =? 34)%nat then
            match stringBody r with
            | Some (text, rest) => Some (JString text, rest)
            | None => None
            end
          else if String.prefix "true" (String c r) then
            Some (JBool true, String.substring 4 (String.length r) (String c r))
          else if String.prefix "false" (String c r) then
            Some (JBool false, String.substring 5 (String.length r) (String c r))
          else if String.prefix "null" (String c r) then
            Some (JNull, String.substring 4 (String.length r) (String c r))
          else if isDigit c then
            let '(d, rest) := digits (String c r) in Some (JNumber d, rest)
          else if (n =? 45)%nat then
            match digits r with
            | (EmptyString, _) => None
            | (d, rest) => Some (JNumber (String c d), rest)
            end
          else None
      end
  end
with members (fuel : nat) (s : string) : option (list (string * JSON) * string) :=
  match fuel with
  | O => None
  | S fuel' =>
      match skipSpace s with
      | String q r =>
          if (Ascii.nat_of_ascii q =? 34)%nat then
            match stringBody r with
            | Some (key, afterKey) =>
                match skipSpace afterKey with
                | String colon afterColon =>
                    if (Ascii.nat_of_ascii colon =? 58)%nat then
                      match value fuel' afterColon with
                      | Some (v, afterValue) =>
                          match skipSpace afterValue with
                          | String sep rest =>
                              if (Ascii.nat_of_ascii sep =? 125)%nat then
                                Some ([(key, v)], rest)
                              else if (Ascii.nat_of_ascii sep =? 44)%nat then
                                match members fuel' rest with
                                | Some (m, rest') => Some ((key, v) :: m, rest')
                                | None => None
                                end
                              else None
                          | EmptyString => None
                          end
                      | None => None
                      end
                    else None
                | EmptyString => None
                end
            | None => None
            end
          else None
      | EmptyString => None
      end
  end
with elements (fuel : nat) (s : string) : option (list JSON * string) :=
  match fuel with
  | O => None
  | S fuel' =>
      match value fuel' s with
      | Some (v, afterValue) =>
          match skipSpace afterValue with
          | String sep rest =>
              if (Ascii.nat_of_ascii sep =? 93)%nat then Some ([v], rest)
              else if (Ascii.nat_of_ascii sep =? 44)%nat then
                match elements fuel' rest with
                | Some (l, rest') => Some (v :: l, rest')
                | None => None
                end
              else None
          | EmptyString => None
          end
      | None => None
      end
  end.

(** The whole input is one value; an object fills the map, [null] leaves
    it empty, any other value is an error. *)
Definition decodeObject (data : string) : option (list (string * JSON)) :=
  match value (S (String.length data)) data with
  | Some (JObject m, rest) =>
      match skipSpace rest with EmptyString => Some m | _ => None end
  | Some (JNull, rest) =>
      match skipSpace rest with EmptyString => Some [] | _ => None end
  | _ => None
  end.

#[global] Instance lib : GoLib :=
  {| TrimSpace := asciiTrimSpace; jsonUnmarshal := decodeObject |}.

End Ascii7.

(** ** Concrete inputs *)

Module Inputs.
Import Models Handlers.

Definition quote : string := String (Ascii.ascii_of_nat 34) EmptyString.

Definition nl : string := String newline EmptyString.

(** The line [data: {"type":"content_block_delta","delta":{"type":
    "text_delta","text":"<text>"}}] of the upstream stream, with its
    newline. *)
Definition deltaLine (text : string) : string :=
  "data: {" ++ quote ++ "type" ++ quote ++ ":" ++ quote ++ "content_block_delta" ++ quote
  ++ "," ++ quote ++ "delta" ++ quote ++ ":{" ++ quote ++ "type" ++ quote ++ ":"
  ++ quote ++ "text_delta" ++ quote ++ "," ++ quote ++ "text" ++ quote ++ ":"
  ++ quote ++ text ++ quote ++ "}}" ++ nl.

Definition doneLine : string := "data: [DONE]" ++ nl.



(** A store with one user, who owns one conversation, and a second user. *)
Definition store : DB :=
  {| users := ["alice"; "bob"];
     conversations :=
       [{| conv_ID := "id-0"; conv_UserID := "alice"; conv_Title := "Hello";
           conv_CreatedAt := 0; conv_UpdatedAt := 0 |}];
     messages := [];
     serial := 1;
     clock := 1 |}.

Definition answers (body : list (string * option readError)) : ClaudeRequest → Upstream :=
  fun _ => Reply 200 body.

End Inputs.

(** ** Traces of the rate limiter *)

Module Traces.
Import Middleware.

(** The requests of [k] in a trace, the other events left out. *)
Definition own (k : string) (tr : list (Z * event)) : list (Z * event) :=
  List.filter
    (fun e => match e.2 with
              | Request ip => bool_decide (ip = k)
              | Tick => false
              end) tr.

(** Requests of one client at the given instants. *)
Definition requestsAt (k : string) (ts : list Z) : list (Z * event) :=
  map (fun t => (t, Request k)) ts.

(** Each instant is no earlier than the one before it and at most one
    [window] later. *)
Fixpoint chained (window : Z) (ts : list Z) : Prop :=
  match ts with
  | t :: ts' =>
      match ts' with
      | t' :: _ => 0 <= t' - t <= window ∧ chained window ts'
      | [] => True
      end
  | [] => True
  end.

Definition sameRoute (a b : route) : bool :=
  match a, b with
  | Auth, Auth | Dashboard, Dashboard | Chat, Chat => true
  | _, _ => false
  end.

(** How many of the requests sent through route [r] were admitted. *)
Fixpoint admittedOn (r : route) (rs : list (route * Z)) (oks : list bool) : nat :=
  match rs, oks with
  | (r', _) :: rs', ok :: oks' =>
      (if ok && sameRoute r' r then 1 else 0) + admittedOn r rs' oks'
  | _, _ => 0
  end.

End Traces.

(** ** middleware/middleware.go : AuthMiddleware; handlers/auth.go *)

Module Auth.

(** The values of a [jwt.MapClaims] that the program writes and reads. *)
Inductive claim : Type :=
  | ClaimString (s : string)
  | ClaimNumber (n : Z).

(** [golang-jwt] and [bcrypt] are library code.  [jwtParse secret now
    token] is [jwt.Parse] with the key function of [AuthMiddleware] (HMAC
    methods only, key [secret]) at the Unix time [now]: the claims when the
    error is nil and [token.Valid] holds.  [jwtSign] is
    [jwt.NewWithClaims(jwt.SigningMethodHS256, claims).SignedString].
    [bcryptGenerate salt password] is [bcrypt.GenerateFromPassword] at the
    default cost, [salt] being the random bytes it draws;
    [bcryptCompare hash password] tells whether
    [bcrypt.CompareHashAndPassword] returns nil. *)
Class AuthLib : Type := {
  jwtParse : string → Z → string → option (gmap string claim);
  jwtSign : string → gmap string claim → option string;
  bcryptGenerate : string → string → option string;
  bcryptCompare : string → string → bool
}.

(** What a middleware does with a request: answer it, or call [next] with
    the user id in the request context. *)
Inductive passage : Type :=
  | Answered (body : string) (status : Z)
  | Next (userID : string).

Section Middleware.
Context `{lib : AuthLib}.

(** [AuthMiddleware(jwtSecret)] on a request whose [Authorization] header
    is [authHeader] (empty when absent).  [jwt.Parse] always yields
    [jwt.MapClaims], so the assertion on the claims' type holds. *)
Definition AuthMiddleware (jwtSecret : string) (now : Z) (authHeader : string)
    : passage :=
  if String.eqb authHeader EmptyString then
    Answered (Handlers.errorBody "Authorization header required") 401
  else
    let tokenString := TrimPrefix authHeader "Bearer " in
    if String.eqb tokenString authHeader then
      Answered (Handlers.errorBody "Invalid authorization format") 401
    else
      match jwtParse jwtSecret now tokenString with
      | None => Answered (Handlers.errorBody "Invalid or expired token") 401
      | Some claims =>
          match claims !! "user_id" with
          | Some (ClaimString userID) => Next userID
          | _ => Answered (Handlers.errorBody "Invalid user ID in token") 401
          end
      end.

(** [GetUserID(r)], the context holding the user id or nothing. *)
Definition GetUserID (ctx : option string) : string :=
  match ctx with
  | Some userID => userID
  | None => EmptyString
  end.

End Middleware.

(** [models.User], a row of the [users] table. *)
Record User : Type := {
  user_ID : string;
  user_Email : string;
  user_Name : string;
  user_Password : string;
  user_CreatedAt : Z;
  user_UpdatedAt : Z
}.

(** The [users] table, rows in insertion order, with the serial number of
    the next identifier and the clock as in [Models.DB]. *)
Record Accounts : Type := {
  rows : list User;
  nextUser : nat;
  today : Z
}.

(** [SELECT EXISTS(SELECT 1 FROM users WHERE email = $1)]. *)
Definition existsEmail (fail : bool) (email : string) (t : Accounts) : option bool :=
  if fail then None
  else Some (existsb (fun u => String.eqb (user_Email u) email) (rows t)).

(** [INSERT INTO users (email, name, password) VALUES ($1, $2, $3)
    RETURNING id, email, name, created_at, updated_at].  [email] is
    [UNIQUE]. *)
Definition insertUser (fail : bool) (email name password : string) (t : Accounts)
    : option (User * Accounts) :=
  if fail then None
  else if existsb (fun u => String.eqb (user_Email u) email) (rows t) then None
  else
    let u := {| user_ID := Models.uuid (nextUser t); user_Email := email;
                user_Name := name; user_Password := password;
                user_CreatedAt := today t; user_UpdatedAt := today t |} in
    Some (u, {| rows := rows t ++ [u]; nextUser := S (nextUser t);
                today := today t + 1 |}).

(** [SELECT id, email, name, password, created_at, updated_at FROM users
    WHERE email = $1], scanned by [QueryRow]: [None] is a database error,
    [Some None] is [sql.ErrNoRows]. *)
Definition selectUser (fail : bool) (email : string) (t : Accounts)
    : option (option User) :=
  if fail then None
  else Some (List.find (fun u => String.eqb (user_Email u) email) (rows t)).

Record RegisterRequest : Type := {
  reg_Email : string;
  reg_Password : string;
  reg_Name : string
}.

Record LoginRequest : Type := {
  login_Email : string;
  login_Password : string
}.

(** [AuthResponse] as [json.NewEncoder] writes it: [models.User] has its
    password tagged [json:"-"]. *)
Record UserJSON : Type := {
  json_id : string;
  json_email : string;
  json_name : string;
  json_created_at : Z;
  json_updated_at : Z
}.

Definition encodeUser (u : User) : UserJSON :=
  {| json_id := user_ID u; json_email := user_Email u; json_name := user_Name u;
     json_created_at := user_CreatedAt u; json_updated_at := user_UpdatedAt u |}.

Inductive reply : Type :=
  | Failed (body : string) (status : Z)
  | Granted (status : Z) (token : string) (user : UserJSON).

Section Handlers.
Context `{lib : AuthLib}.

(** [generateToken(userID)] at the Unix time [now]: seven days to expiry. *)
Definition generateToken (jwtSecret : string) (now : Z) (userID : string)
    : option string :=
  jwtSign jwtSecret
    (<["user_id" := ClaimString userID]>
       (<["exp" := ClaimNumber (now + 3600 * 24 * 7)]>
          (<["iat" := ClaimNumber now]> ∅))).

(** [Register].  [body] is the decoded request ([None] when decoding
    fails), [salt] the random bytes of [bcrypt], [failExists] and
    [failInsert] failures of the two statements for outside reasons. *)
Definition Register (jwtSecret : string) (now : Z) (salt : string)
    (body : option RegisterRequest) (failExists failInsert : bool) (t : Accounts)
    : Accounts * reply :=
  match body with
  | None => (t, Failed (Handlers.errorBody "Invalid request body") 400)
  | Some req =>
  if String.eqb (reg_Email req) EmptyString || String.eqb (reg_Password req) EmptyString
     || String.eqb (reg_Name req) EmptyString then
    (t, Failed (Handlers.errorBody "Email, password, and name are required") 400)
  else if (String.length (reg_Password req) <? 6)%nat then
    (t, Failed (Handlers.errorBody "Password must be at least 6 characters") 400)
  else
  match existsEmail failExists (reg_Email req) t with
  | None => (t, Failed (Handlers.errorBody "Database error") 500)
  | Some true => (t, Failed (Handlers.errorBody "Email already registered") 409)
  | Some false =>
  match bcryptGenerate salt (reg_Password req) with
  | None => (t, Failed (Handlers.errorBody "Error hashing password") 500)
  | Some hashedPassword =>
  match insertUser failInsert (reg_Email req) (reg_Name req) hashedPassword t with
  | None => (t, Failed (Handlers.errorBody "Error creating user") 500)
  | Some (user, t1) =>
  match generateToken jwtSecret now (user_ID user) with
  | None => (t1, Failed (Handlers.errorBody "Error generating token") 500)
  | Some token => (t1, Granted 201 token (encodeUser user))
  end end end end end.

(** [Login]. *)
Definition Login (jwtSecret : string) (now : Z) (body : option LoginRequest)
    (failSelect : bool) (t : Accounts) : reply :=
  match body with
  | None => Failed (Handlers.errorBody "Invalid request body") 400
  | Some req =>
  if String.eqb (login_Email req) EmptyString
     || String.eqb (login_Password req) EmptyString then
    Failed (Handlers.errorBody "Email and password are required") 400
  else
  match selectUser failSelect (login_Email req) t with
  | None => Failed (Handlers.errorBody "Database error") 500
  | Some None => Failed (Handlers.errorBody "Invalid email or password") 401
  | Some (Some user) =>
  if negb (bcryptCompare (user_Password user) (login_Password req)) then
    Failed (Handlers.errorBody "Invalid email or password") 401
  else
  match generateToken jwtSecret now (user_ID user) with
  | None => Failed (Handlers.errorBody "Error generating token") 500
  | Some token => Granted 200 token (encodeUser user)
  end end end.

End Handlers.

(** No two rows of the table have the same email. *)
Definition uniqueEmails (t : Accounts) : Prop :=
  NoDup (map user_Email (rows t)).

End Auth.

(** ** handlers/chat.go : GetConversations *)

Module Conversations.
Import Models Handlers.

(** [ORDER BY updated_at DESC], rows of equal time in insertion order. *)
Fixpoint insertByUpdatedAt (c : Conversation) (l : list Conversation)
    : list Conversation :=
  match l with
  | [] => [c]
  | c' :: l' =>
      if conv_UpdatedAt c' <? conv_UpdatedAt c then c :: l
      else c' :: insertByUpdatedAt c l'
  end.

Definition orderByUpdatedAtDesc (l : list Conversation) : list Conversation :=
  fold_left (fun sorted c => insertByUpdatedAt c sorted) l [].

(** [SELECT id, title, created_at, updated_at FROM conversations WHERE
    user_id = $1 ORDER BY updated_at DESC LIMIT 50]. *)
Definition selectConversations (fail : bool) (userID : string) (db : DB)
    : option (list Conversation) :=
  if fail then None
  else Some (firstn 50
               (orderByUpdatedAtDesc
                  (List.filter (fun c => String.eqb (conv_UserID c) userID)
                     (conversations db)))).

(** What the client receives: an error, or the object whose member
    [conversations] is the slice; [None] is the nil slice, which
    [encoding/json] writes as [null]. *)
Inductive listing : Type :=
  | ListingError (body : string) (status : Z)
  | Listing (conversations : option (list Conversation)).

(** [conversations = append(conversations, conv)]. *)
Definition appendConversation (conversations : option (list Conversation))
    (conv : Conversation) : option (list Conversation) :=
  match conversations with
  | None => Some [conv]
  | Some l => Some (l ++ [conv])%list
  end.

(** [GetConversations]: the loop over the rows sets [conv.UserID] and scans
    the four selected columns. *)
Definition GetConversations (userID : string) (fail : bool) (db : DB) : listing :=
  if String.eqb userID EmptyString then ListingError (errorBody "Unauthorized") 401
  else
    match selectConversations fail userID db with
    | None => ListingError (errorBody "Error fetching conversations") 500
    | Some rows =>
        Listing
          (fold_left
             (fun conversations row =>
                appendConversation conversations
                  {| conv_ID := conv_ID row; conv_UserID := userID;
                     conv_Title := conv_Title row;
                     conv_CreatedAt := conv_CreatedAt row;
                     conv_UpdatedAt := conv_UpdatedAt row |})
             rows None)
    end.

End Conversations.

(** ** Reading the upstream stream and the store *)

Module Reading.
Import Models Handlers.

Section Lines.
Context `{lib : GoLib}.

(** Whether a line, once trimmed, is the sentinel frame. *)
Definition isDone (line : string) : bool :=
  HasPrefix (TrimSpace line) "data: "
  && String.eqb (TrimPrefix (TrimSpace line) "data: ") "[DONE]".

(** The text a line contributes: that of a [data: ] line whose payload
    decodes to a [content_block_delta] with a text. *)
Definition lineText (line : string) : option string :=
  if HasPrefix (TrimSpace line) "data: " then
    match jsonUnmarshal (TrimPrefix (TrimSpace line) "data: ") with
    | Some streamResp => deltaText streamResp
    | None => None
    end
  else None.

(** The lines before the first sentinel. *)
Fixpoint untilDone (lines : list string) : list string :=
  match lines with
  | [] => []
  | line :: lines' => if isDone line then [] else line :: untilDone lines'
  end.

(** The texts of one read. *)
Definition chunkTexts (chunk : string) : list string :=
  if (0 <? String.length chunk)%nat then omap lineText (untilDone (Split chunk))
  else [].

(** The texts of the reads up to the first one that returns an error, and
    that error when it is not [io.EOF]. *)
Fixpoint bodyTexts (body : list (string * option readError)) : list string :=
  match body with
  | [] => []
  | (chunk, None) :: body' => (chunkTexts chunk ++ bodyTexts body')%list
  | (chunk, Some _) :: _ => chunkTexts chunk
  end.

Fixpoint bodyError (body : list (string * option readError)) : option string :=
  match body with
  | [] => None
  | (_, None) :: body' => bodyError body'
  | (_, Some EOF) :: _ => None
  | (_, Some (Broken msg)) :: _ => Some msg
  end.

End Lines.

(** Whether the upstream call completes: the reply has status 200 and its
    body is read up to [io.EOF] without another read error. *)
Definition completes (reply : Upstream) : bool :=
  match reply with
  | DoError _ => false
  | Reply StatusCode Body =>
      (StatusCode =? 200)
      && match bodyError Body with None => true | Some _ => false end
  end.

(** Whether the inbound message of a call gets stored: the subject is
    known, the message is not empty, the conversation is created for a
    subject of the [users] table or the given id is that of a stored
    conversation, and neither statement fails for outside reasons. *)
Definition accepts (userID M cid : string) (faults : Faults) (db : DB) : bool :=
  negb (String.eqb userID EmptyString) && negb (String.eqb M EmptyString)
  && (if String.eqb cid EmptyString
      then negb (failCreate faults) && bool_decide (userID ∈ users db)
      else existsb (fun c => String.eqb (conv_ID c) cid) (conversations db))
  && negb (failSaveUser faults).

(** The rows of a conversation among [rows], as the history query orders
    them. *)
Definition conversationRows (conversationID : string) (rows : list Message)
    : list Message :=
  orderByCreatedAt
    (List.filter (fun m => String.eqb (msg_ConversationID m) conversationID) rows).

(** No row of the messages table is stamped later than the clock. *)
Definition stamped (db : DB) : Prop :=
  ∀ m, In m (messages db) → msg_CreatedAt m <= clock db.

(** [db'] has the users of [db] and every conversation of [db], with the
    same id, owner, title and creation time. *)
Definition keeps (db db' : DB) : Prop :=
  users db' = users db
  ∧ ∀ c, In c (conversations db) →
      ∃ c', In c' (conversations db') ∧ conv_ID c' = conv_ID c
            ∧ conv_UserID c' = conv_UserID c ∧ conv_Title c' = conv_Title c
            ∧ conv_CreatedAt c' = conv_CreatedAt c.

(** [db'] holds the rows of [db], and its messages are those of [db]
    followed by at most two more. *)
Definition extends (db db' : DB) : Prop :=
  keeps db db'
  ∧ ∃ new, messages db' = (messages db ++ new)%list ∧ (length new <= 2)%nat.

(** The order of [ORDER BY created_at ASC] and of [ORDER BY updated_at
    DESC]. *)
Definition earlier (a b : Message) : Prop := msg_CreatedAt a <= msg_CreatedAt b.

Definition fresher (a b : Conversation) : Prop := conv_UpdatedAt b <= conv_UpdatedAt a.

End Reading.

(** ** main.go : the chat route behind its two middlewares *)

Module Router.
Import Middleware Models Handlers Auth.

(** The Unix time, in seconds, of an instant in nanoseconds. *)
Definition unix (now : Z) : Z := now / 1000000000.

(** The 429 response of [RateLimiter]. *)
Definition tooManyRequests : Response :=
  HttpError (errorBody "Rate limit exceeded. Please try again later.") 429.

Section Routes.
Context `{golib : GoLib} `{authlib : AuthLib}.

(** [POST /api/chat/]: [AuthMiddleware], then the chat limiter, then
    [SendMessage], on the shared map and the store. *)
Definition postChat (jwtSecret : string) (now : Z) (ip authHeader : string)
    (body : option ChatRequest) (upstream : ClaudeRequest → Upstream)
    (faults : Faults) (visitors : gmap string visitor) (db : DB)
    : gmap string visitor * DB * Response :=
  match AuthMiddleware jwtSecret (unix now) authHeader with
  | Answered b status => (visitors, db, HttpError b status)
  | Next userID =>
      let '(visitors1, ok) := limiter Chat now ip visitors in
      if ok then
        let '(db1, response) :=
          SendMessage (GetUserID (Some userID)) body upstream faults db in
        (visitors1, db1, response)
      else (visitors1, db, tooManyRequests)
  end.

End Routes.

End Router.

(** ** Library functions to run the authentication code on concrete input

    Stand-ins for [golang-jwt] and [bcrypt] that keep what the handlers rely
    on: a signed token parses to the user id it was signed for, and a
    password matches the hash generated from it. *)

Module ToyAuth.
Import Auth.

Definition sign (secret : string) (claims : gmap string claim) : option string :=
  match claims !! "user_id" with
  | Some (ClaimString userID) => Some (secret ++ ("." ++ userID))
  | _ => None
  end.

Definition parse (secret : string) (now : Z) (token : string)
    : option (gmap string claim) :=
  if HasPrefix token secret && HasPrefix (TrimPrefix token secret) "." then
    Some {[ "user_id" := ClaimString (TrimPrefix (TrimPrefix token secret) ".") ]}
  else None.

Definition generate (salt password : string) : option string :=
  if (72 <? String.length password)%nat then None
  else Some (password ++ ("$" ++ salt)).

Definition compare (hash password : string) : bool :=
  HasPrefix hash password && HasPrefix (TrimPrefix hash password) "$".

#[global] Instance lib : AuthLib :=
  {| jwtParse := parse; jwtSign := sign;
     bcryptGenerate := generate; bcryptCompare := compare |}.

(** A table with one account. *)
Definition accounts : Accounts :=
  {| rows := [{| user_ID := "id-0"; user_Email := "alice@example.com";
                 user_Name := "Alice"; user_Password := "secret1$salt";
                 user_CreatedAt := 0; user_UpdatedAt := 0 |}];
     nextUser := 1;
     today := 1 |}.

End ToyAuth.

(** A stand-in for [golang-jwt] that honours the expiry: a token is the
    secret, the [exp] claim in decimal and the user id, separated by dots,
    and it parses strictly before the instant [exp]. *)

Module ClockedAuth.
Import Auth.

Definition decimal (n : Z) : string := NilZero.string_of_int (Z.to_int n).

Definition number (s : string) : option Z :=
  option_map Z.of_int (NilZero.int_of_string s).

(** The text before the first dot and the text after it. *)
Fixpoint cutAtDot (s : string) : option (string * string) :=
  match s with
  | EmptyString => None
  | String c s' =>
      if Ascii.eqb c "."%char then Some (EmptyString, s')
      else match cutAtDot s' with
           | Some (a, b) => Some (String c a, b)
           | None => None
           end
  end.

Definition sign (secret : string) (claims : gmap string claim) : option string :=
  match claims !! "user_id", claims !! "exp" with
  | Some (ClaimString userID), Some (ClaimNumber exp) =>
      Some (secret ++ ("." ++ (decimal exp ++ ("." ++ userID))))
  | _, _ => None
  end.

(** The expiry and the user id a token names, when it begins with the
    secret. *)
Definition opened (secret token : string) : option (Z * string) :=
  if HasPrefix token secret && HasPrefix (TrimPrefix token secret) "." then
    match cutAtDot (TrimPrefix (TrimPrefix token secret) ".") with
    | Some (e, userID) =>
        match number e with
        | Some exp => Some (exp, userID)
        | None => None
        end
    | None => None
    end
  else None.

Definition parse (secret : string) (now : Z) (token : string)
    : option (gmap string claim) :=
  match opened secret token with
  | Some (exp, userID) =>
      if now <? exp then
        Some (<["user_id" := ClaimString userID]> {[ "exp" := ClaimNumber exp ]})
      else None
  | None => None
  end.

Definition lib : AuthLib :=
  {| jwtParse := parse; jwtSign := sign;
     bcryptGenerate := ToyAuth.generate; bcryptCompare := ToyAuth.compare |}.

End ClockedAuth.

(** ** Concrete calls *)

Module Scenes.
Import Models Handlers Inputs.

(** Alice's first message, answered by the given upstream. *)
Definition hello (upstream : ClaudeRequest → Upstream) : DB * Response :=
  SendMessage "alice"
    (Some {| req_Message := "Hello"; req_ConversationID := EmptyString |})
    upstream noFaults store.

(** Bob's message to Alice's conversation. *)
Definition intrusion (upstream : ClaudeRequest → Upstream) : DB * Response :=
  SendMessage "bob"
    (Some {| req_Message := "Hi Alice"; req_ConversationID := "id-0" |})
    upstream noFaults store.

Definition twoDeltas : list (string * option readError) :=
  [((deltaLine "Hi" ++ deltaLine " there")%string, None)].


Definition pingOnly : list (string * option readError) :=
  [(("event: ping" ++ nl)%string, None)].

(** The map of a client that has used up the chat limit at instant 0. *)
Definition exhausted : gmap string Middleware.visitor :=
  {[ "10.0.0.1:5000" := Middleware.Visitor 0 20 ]}.

End Scenes.

(** * Properties of the rate limiter *)

Module MiddlewareSpec.
Import Middleware.
Local Open Scope list_scope.

Implicit Types (vs : gmap string visitor) (tr : list (Z * event)).

Lemma RateLimiter_denied limit window now ip vs vs' :
  RateLimiter limit window now ip vs = (vs', false) → vs' = vs.
Proof.
  unfold RateLimiter. destruct (vs !! ip) as [v|]; [|congruence].
  destruct (window <? _); [congruence|]. destruct (limit <=? _); congruence.
Qed.

Lemma RateLimiter_other limit window now ip k vs :
  ip ≠ k → (RateLimiter limit window now ip vs).1 !! k = vs !! k.
Proof.
  intros Hne. unfold RateLimiter.
  destruct (vs !! ip) as [v|]; [destruct (window <? _); [|destruct (limit <=? _)]|];
    simpl; by rewrite ?lookup_insert_ne.
Qed.

Lemma cleanup_lookup window now vs k :
  cleanup window now vs !! k =
    match vs !! k with
    | Some v => if decide (window < since now (lastSeen v)) then None else Some v
    | None => None
    end.
Proof.
  unfold cleanup. rewrite map_lookup_filter.
  destruct (vs !! k) as [v|]; simpl; [|done].
  destruct (decide (window < since now (lastSeen v))).
  - rewrite option_guard_False; [done|]. simpl. tauto.
  - by rewrite option_guard_True.
Qed.

Lemma within_window_tail window e tr :
  within_window window (e :: tr) → within_window window tr.
Proof. intros H t t' Ht Ht'. apply H; simpl; auto. Qed.

Lemma budget_tail limit window e tr o a :
  budget limit window (e :: tr) o a → budget limit window tr o a.
Proof.
  destruct 1 as [o Hf|v Hc Hw].
  - constructor. destruct o; [|done]. intros t Ht. apply Hf. simpl; auto.
  - constructor; [done|]. intros t Ht. apply Hw. simpl; auto.
Qed.

Lemma outcomes_cons_eq k ok log : outcomes k ((k, ok) :: log) = ok :: outcomes k log.
Proof. unfold outcomes. simpl. by rewrite bool_decide_eq_true_2. Qed.

Lemma outcomes_cons_ne k ip ok log :
  ip ≠ k → outcomes k ((ip, ok) :: log) = outcomes k log.
Proof. intros. unfold outcomes. simpl. by rewrite bool_decide_eq_false_2. Qed.

Lemma run_request limit window now ip tr vs :
  run limit window ((now, Request ip) :: tr) vs =
    ((run limit window tr (RateLimiter limit window now ip vs).1).1,
     (ip, (RateLimiter limit window now ip vs).2)
       :: (run limit window tr (RateLimiter limit window now ip vs).1).2).
Proof.
  simpl. destruct (RateLimiter limit window now ip vs) as [vs1 ok]. simpl.
  by destruct (run limit window tr vs1).
Qed.

Lemma run_budget limit window k tr : ∀ vs a,
  1 <= limit →
  within_window window tr →
  budget limit window tr (vs !! k) a →
  outcomes k (run limit window tr vs).2 =
    (replicate (min a (requests_of k tr)) true
     ++ replicate (requests_of k tr - a) false)%list.
Proof.
  induction tr as [|[now [ip|]] tr IH]; intros vs a Hlim Hww Hb.
  - simpl. by rewrite Nat.min_0_r.
  - rewrite run_request. cbn [snd requests_of].
    assert (Hnow : In now (map fst ((now, Request ip) :: tr))) by (simpl; auto).
    assert (Hlater : ∀ t, In t (map fst tr) → since t now <= window).
    { intros t Ht. unfold since. apply Hww; simpl; auto. }
    destruct (decide (ip = k)) as [->|Hne].
    + rewrite outcomes_cons_eq, bool_decide_eq_true_2 by done.
      assert (Hgo : ∀ vs1, vs1 !! k = Some (Visitor now 1) →
        true :: outcomes k (run limit window tr vs1).2 =
        (replicate (min (Z.to_nat limit) (S (requests_of k tr))) true
         ++ replicate (S (requests_of k tr) - Z.to_nat limit) false)%list).
      { intros vs1 Hvs1.
        rewrite (IH vs1 (Z.to_nat (limit - 1))); [|done|by eapply within_window_tail|].
        - replace (Z.to_nat limit) with (S (Z.to_nat (limit - 1))) by lia. done.
        - rewrite Hvs1. apply (budget_active limit window tr (Visitor now 1)); simpl; [lia|done]. }
      unfold RateLimiter.
      destruct (vs !! k) as [v|] eqn:Hk.
      * inversion Hb as [o Hf Ho Ha|v' Hc Hw Hv Ha]; subst.
        -- (* last seen before this window: the count restarts at 1 *)
           specialize (Hf now Hnow). simpl in Hf.
           assert ((window <? since now (lastSeen v)) = true) as -> by (by apply Z.ltb_lt).
           simpl. apply Hgo. apply lookup_insert_eq.
        -- specialize (Hw now Hnow).
           assert ((window <? since now (lastSeen v)) = false) as -> by (apply Z.ltb_ge; lia).
           destruct (limit <=? count v) eqn:Hfull.
           ++ (* the count has reached the limit: denied, nothing changes *)
              apply Z.leb_le in Hfull. assert (count v = limit) as Heq by lia.
              simpl. rewrite (IH vs (Z.to_nat (limit - count v))); [|done|by eapply within_window_tail|].
              ** replace (Z.to_nat (limit - count v)) with 0%nat by lia.
                 simpl. by rewrite Nat.sub_0_r.
              ** rewrite Hk. by eapply budget_tail.
           ++ apply Z.leb_gt in Hfull. simpl.
              rewrite (IH _ (Z.to_nat (limit - (count v + 1)))); [|done|by eapply within_window_tail|].
              ** replace (Z.to_nat (limit - count v)) with (S (Z.to_nat (limit - (count v + 1)))) by lia.
                 done.
              ** rewrite lookup_insert_eq.
                 apply (budget_active limit window tr (Visitor now (count v + 1))); simpl; [lia|done].
      * inversion Hb as [o Hf Ho Ha|]; subst.
        simpl. apply Hgo. apply lookup_insert_eq.
    + rewrite outcomes_cons_ne, bool_decide_eq_false_2 by done.
      apply IH; [done|by eapply within_window_tail|].
      rewrite RateLimiter_other by done. by eapply budget_tail.
  - cbn [run requests_of].
    assert (Hnow : In now (map fst ((now, Tick) :: tr))) by (simpl; auto).
    apply IH; [done|by eapply within_window_tail|].
    rewrite cleanup_lookup.
    destruct (vs !! k) as [v|] eqn:Hk; [|by eapply budget_tail].
    destruct (decide (window < since now (lastSeen v))) as [Hold|Hyoung].
    + inversion Hb as [o Hf Ho Ha|v' Hc Hw Hv Ha]; subst.
      * by constructor.
      * specialize (Hw now Hnow). lia.
    + by eapply budget_tail.
Qed.

Lemma count_bounded limit window now ip vs :
  (∀ k v, vs !! k = Some v → 1 <= count v <= Z.max 1 limit) →
  ∀ k v, (RateLimiter limit window now ip vs).1 !! k = Some v →
         1 <= count v <= Z.max 1 limit.
Proof.
  intros Hinv k v. unfold RateLimiter.
  destruct (vs !! ip) as [u|] eqn:Hip;
    [destruct (window <? _); [|destruct (limit <=? count u) eqn:Hfull]|]; simpl;
    try (by apply Hinv);
    (destruct (decide (ip = k)) as [->|Hne];
      [rewrite lookup_insert_eq; intros [= <-]; simpl
      |rewrite lookup_insert_ne by done; by apply Hinv]); try lia.
  apply Z.leb_gt in Hfull. specialize (Hinv _ _ Hip). lia.
Qed.

Lemma denied_run limit window k v tr : ∀ vs,
  vs !! k = Some v ∨ vs !! k = None →
  outcomes k (run limit window tr vs).2 = replicate (requests_of k tr) false →
  (run limit window tr vs).1 !! k = Some v ∨ (run limit window tr vs).1 !! k = None.
Proof.
  induction tr as [|[now [ip|]] tr IH]; intros vs Hk Hden.
  - done.
  - rewrite run_request in *. cbn [fst snd requests_of] in *.
    destruct (decide (ip = k)) as [->|Hne].
    + rewrite outcomes_cons_eq, bool_decide_eq_true_2 in Hden by done.
      simpl in Hden. injection Hden as Hno Hden.
      destruct (RateLimiter limit window now k vs) as [vs1 ok] eqn:Hstep.
      simpl in *. subst ok. apply RateLimiter_denied in Hstep as ->. by apply IH.
    + rewrite outcomes_cons_ne, bool_decide_eq_false_2 in Hden by done.
      apply IH; [|done]. by rewrite RateLimiter_other.
  - cbn [run requests_of] in *. apply IH; [|done].
    rewrite cleanup_lookup. destruct Hk as [->| ->]; [|by right].
    destruct (decide _); auto.
Qed.

(** C1, for limits of at least one.  A client not seen during the window in
    which a trace of requests and cleanup ticks lies has its requests
    admitted up to the limit and denied from the next one on; a denied call
    leaves the whole map as it was. *)
Theorem rate_limit_within_window limit window k tr vs :
  1 <= limit →
  fresh window tr (vs !! k) →
  within_window window tr →
  outcomes k (run limit window tr vs).2 =
    (replicate (min (Z.to_nat limit) (requests_of k tr)) true
     ++ replicate (requests_of k tr - Z.to_nat limit) false)%list
  ∧ ∀ now ip vs0 vs1,
      RateLimiter limit window now ip vs0 = (vs1, false) → vs1 = vs0.
Proof.
  intros Hlim Hfresh Hww. split.
  - apply run_budget; [done..|]. by constructor.
  - intros now ip vs0 vs1. apply RateLimiter_denied.
Qed.

Lemma rate_limit_within_window_witness :
  outcomes "10.0.0.1:5000"
    (run 2 10 [(0, Request "10.0.0.1:5000"); (3, Request "10.0.0.9:80"); (4, Tick);
               (5, Request "10.0.0.1:5000"); (10, Request "10.0.0.1:5000")] ∅).2
  = [true; true; false].
Proof.
  refine (proj1 (rate_limit_within_window 2 10 "10.0.0.1:5000" _ ∅ _ _ _)).
  - lia.
  - exact I.
  - intros t t' Ht Ht'. simpl in Ht, Ht'. intuition lia.
Defined.

(** C1 as stated fails for the limit 0: the first call of a client, which
    is then the (limit+1)-th, is admitted. *)
Lemma rate_limit_zero_admits :
  ¬ (outcomes "10.0.0.1:5000" (run 0 10 [(0, Request "10.0.0.1:5000")] ∅).2 =
     (replicate (min (Z.to_nat 0) 1) true ++ replicate (1 - Z.to_nat 0) false)%list).
Proof. vm_compute. discriminate. Qed.

(** C10.  Denied calls change neither field of the record, so however many
    requests of a client are denied in between (other clients' requests
    and cleanup ticks interleaved), its next request more than one window
    after the last admitted one is admitted with a count starting at 1. *)
Theorem denied_requests_keep_the_window limit window k v tr vs t :
  vs !! k = Some v →
  outcomes k (run limit window tr vs).2 = replicate (requests_of k tr) false →
  window < since t (lastSeen v) →
  (∀ now vs0 vs1, RateLimiter limit window now k vs0 = (vs1, false) →
                  vs1 !! k = vs0 !! k)
  ∧ RateLimiter limit window t k (run limit window tr vs).1 =
      (<[k := Visitor t 1]> (run limit window tr vs).1, true).
Proof.
  intros Hk Hden Hlate. split.
  - intros now vs0 vs1 Hstep. by apply RateLimiter_denied in Hstep as ->.
  - unfold RateLimiter.
    destruct (denied_run limit window k v tr vs (or_introl Hk) Hden) as [-> | ->]; [|done].
    by assert ((window <? since t (lastSeen v)) = true) as -> by (by apply Z.ltb_lt).
Qed.

Lemma denied_requests_keep_the_window_witness :
  RateLimiter 2 10 16 "10.0.0.1:5000"
    (run 2 10 [(6, Request "10.0.0.1:5000"); (7, Request "10.0.0.1:5000"); (8, Tick);
               (9, Request "10.0.0.9:80")]
       {[ "10.0.0.1:5000" := Visitor 5 2 ]}).1
  = (<["10.0.0.1:5000" := Visitor 16 1]>
       (run 2 10 [(6, Request "10.0.0.1:5000"); (7, Request "10.0.0.1:5000"); (8, Tick);
                  (9, Request "10.0.0.9:80")]
          {[ "10.0.0.1:5000" := Visitor 5 2 ]}).1, true).
Proof.
  refine (proj2 (denied_requests_keep_the_window 2 10 "10.0.0.1:5000" (Visitor 5 2) _ _ 16 _ _ _)).
  - reflexivity.
  - vm_compute. reflexivity.
  - vm_compute. reflexivity.
Defined.

(** C5 on the code.  The limiters of the three route classes count in one
    shared map: after five dashboard requests a client's first login
    request is denied, although the login limiter alone admits it. *)
Theorem limiters_share_visitors :
  (serve (replicate 5 (Dashboard, 0) ++ [(Auth, 1)])%list "10.0.0.1:5000" ∅).2 =
    [true; true; true; true; true; false]
  ∧ (limiter Auth 1 "10.0.0.1:5000" ∅).2 = true.
Proof. split; vm_compute; reflexivity. Qed.

End MiddlewareSpec.

(** * Properties of the chat handlers *)

Module HandlersSpec.
Import Models Handlers.
Local Open Scope list_scope.

(** ** Strings *)

Lemma append_assoc (a b c : string) : ((a ++ b) ++ c)%string = (a ++ (b ++ c))%string.
Proof.
  induction a as [|x a IH]; [done|].
  change (String x ((a ++ b) ++ c)%string = String x (a ++ (b ++ c))%string).
  by rewrite IH.
Qed.

Lemma append_empty_r (a : string) : (a ++ EmptyString)%string = a.
Proof.
  induction a as [|x a IH]; [done|].
  change (String x (a ++ EmptyString)%string = String x a). by rewrite IH.
Qed.

Lemma concatText_app (xs ys : list string) :
  concatText (xs ++ ys) = (concatText xs ++ concatText ys)%string.
Proof.
  induction xs as [|x xs IH]; simpl; [done|].
  unfold concatText in *. simpl. by rewrite IH, append_assoc.
Qed.






(** ** The store *)

Lemma uuid_nonempty n : uuid n ≠ EmptyString.
Proof. unfold uuid. discriminate. Qed.

Lemma insertMessage_Some fail conv role content db db' :
  insertMessage fail conv role content db = Some db' →
  fail = false ∧
  existsb (fun c => String.eqb (conv_ID c) conv) (conversations db) = true ∧
  users db' = users db ∧
  conversations db' = conversations db ∧
  ∃ m, messages db' = messages db ++ [m] ∧ msg_ConversationID m = conv ∧
       msg_Role m = role ∧ msg_Content m = content.
Proof.
  unfold insertMessage. destruct fail; [done|].
  destruct (existsb _ _); [|done]. intros [= <-]. simpl. eauto 10.
Qed.

Lemma createConversation_Some fail userID M db conv db' :
  createConversation fail userID M db = Some (conv, db') →
  conv = uuid (serial db) ∧
  messages db' = messages db ∧
  ∃ c, conversations db' = conversations db ++ [c] ∧ conv_ID c = conv ∧
       conv_UserID c = userID ∧ conv_Title c = conversationTitle M.
Proof.
  unfold createConversation, insertConversation. destruct fail; [done|].
  case_bool_decide; [|done]. intros [= <- <-]. simpl. eauto 10.
Qed.

Lemma touchConversation_messages fail conv db :
  messages (touchConversation fail conv db) = messages db.
Proof. unfold touchConversation. by destruct fail. Qed.


(** ** Frames *)

Lemma fields_of_event ty text conv :
  field "type" (formatStreamEvent ty text conv) = Some ty ∧
  field "conversationId" (formatStreamEvent ty text conv) =
    (if String.eqb conv EmptyString then None else Some conv).
Proof.
  unfold formatStreamEvent, marshalStreamEvent. simpl.
  by destruct (String.eqb text EmptyString), (String.eqb conv EmptyString).
Qed.

Lemma contentText_contentFrame text : contentText (contentFrame text) = Some text.
Proof.
  unfold contentText, contentFrame, formatStreamEvent, marshalStreamEvent. simpl.
  by destruct (String.eqb_spec text EmptyString) as [->|].
Qed.

Lemma contentText_other ty text conv :
  ty ≠ "content" → contentText (formatStreamEvent ty text conv) = None.
Proof.
  intros Hty. unfold contentText. rewrite (proj1 (fields_of_event ty text conv)).
  by destruct (String.eqb_spec ty "content").
Qed.

Lemma forwardedText_stream first texts last :
  contentText first = None → contentText last = None →
  forwardedText (first :: map contentFrame texts ++ [last]) = concatText texts.
Proof.
  intros Hfirst Hlast. unfold forwardedText. f_equal.
  cbn [omap list_omap]. rewrite Hfirst.
  induction texts as [|text texts IH]; cbn [omap list_omap map app].
  - by rewrite Hlast.
  - by rewrite contentText_contentFrame, IH.
Qed.

(** ** History retrieval *)

(** C8.  [GetHistory] answers a conversation id owned by another subject
    exactly as it answers an id that no conversation has, with the one 404
    response and no rows, whatever the statements' failures; rows are
    returned only for a conversation the store holds with the requesting
    subject as owner. *)
Theorem history_hides_foreign_conversations userID other missing faults faults' db :
  userID ≠ EmptyString → other ≠ EmptyString → missing ≠ EmptyString →
  (∀ c, In c (conversations db) → conv_ID c = other → conv_UserID c ≠ userID) →
  (∀ c, In c (conversations db) → conv_ID c ≠ missing) →
  GetHistory userID other faults db = HttpError (errorBody "Conversation not found") 404
  ∧ GetHistory userID missing faults' db = GetHistory userID other faults db
  ∧ ∀ cid faults'' rows, GetHistory userID cid faults'' db = JsonMessages rows →
      ∃ c, In c (conversations db) ∧ conv_ID c = cid ∧ conv_UserID c = userID.
Proof.
  intros HU Hother Hmissing Hforeign Habsent.
  assert (∀ cid f, cid ≠ EmptyString →
            (∀ c, In c (conversations db) → conv_ID c = cid → conv_UserID c ≠ userID) →
            GetHistory userID cid f db = HttpError (errorBody "Conversation not found") 404)
    as Hnot.
  { intros cid f Hcid Hno. unfold GetHistory, existsConversation.
    destruct (String.eqb_spec userID EmptyString); [done|].
    destruct (String.eqb_spec cid EmptyString); [done|].
    destruct (failExists f); [done|].
    destruct (existsb _ _) eqn:Hex; [|done].
    apply existsb_exists in Hex as (c & Hin & Hc). apply andb_true_iff in Hc as [Hid Hown].
    apply String.eqb_eq in Hid, Hown. by destruct (Hno c Hin Hid). }
  split; [by apply Hnot|]. split.
  - rewrite !Hnot; try done. intros c Hin Hid. by destruct (Habsent c Hin).
  - intros cid f rows. unfold GetHistory, existsConversation.
    destruct (String.eqb userID EmptyString); [done|].
    destruct (String.eqb cid EmptyString); [done|].
    destruct (failExists f); [done|].
    destruct (existsb _ _) eqn:Hex; [|done]. intros _.
    apply existsb_exists in Hex as (c & Hin & Hc). apply andb_true_iff in Hc as [Hid Hown].
    apply String.eqb_eq in Hid, Hown. eauto.
Qed.

(** ** The relay, over any implementation of the library functions *)

Section Relay.
Context `{lib : GoLib}.

Lemma scanLines_forwards lines :
  ∃ texts, ∀ fullResponse w, scanLines lines fullResponse w =
    ((fullResponse ++ concatText texts)%string, w ++ map contentFrame texts).
Proof.
  induction lines as [|line lines [texts IH]]; simpl.
  - exists []. intros acc w. simpl. by rewrite append_empty_r, app_nil_r.
  - destruct (negb (HasPrefix (TrimSpace line) "data: ")); [by exists texts|].
    destruct (String.eqb _ "[DONE]").
    { exists []. intros acc w. simpl. by rewrite append_empty_r, app_nil_r. }
    destruct (jsonUnmarshal _) as [streamResp|]; [|by exists texts].
    destruct (deltaText streamResp) as [text|]; [|by exists texts].
    exists (text :: texts). intros acc w. rewrite IH.
    unfold concatText. simpl. by rewrite append_assoc, <- app_assoc.
Qed.

Lemma scanLines_sentinel line lines fullResponse w :
  TrimSpace line = "data: [DONE]" →
  scanLines (line :: lines) fullResponse w = (fullResponse, w).
Proof. intros Hline. simpl. by rewrite Hline. Qed.

Lemma readLoop_forwards body :
  ∃ texts err, ∀ fullResponse w, readLoop body fullResponse w =
    ((fullResponse ++ concatText texts)%string, err, w ++ map contentFrame texts).
Proof.
  induction body as [|[chunk err] body (texts2 & err2 & IH)]; simpl.
  - exists [], None. intros acc w. simpl. by rewrite append_empty_r, app_nil_r.
  - assert (∃ texts1, ∀ acc w,
              (if (0 <? String.length chunk)%nat
               then scanLines (Split chunk) acc w else (acc, w)) =
              ((acc ++ concatText texts1)%string, w ++ map contentFrame texts1))
      as [texts1 Hscan].
    { destruct (0 <? String.length chunk)%nat; [apply scanLines_forwards|].
      exists []. intros acc w. simpl. by rewrite append_empty_r, app_nil_r. }
    destruct err as [[|msg]|].
    + exists texts1, None. intros acc w. by rewrite Hscan.
    + exists texts1, (Some msg). intros acc w. by rewrite Hscan.
    + exists (texts1 ++ texts2), err2. intros acc w. rewrite Hscan, IH.
      by rewrite concatText_app, append_assoc, map_app, <- app_assoc.
Qed.

Lemma streamClaudeResponse_forwards reply :
  ∃ texts, ∀ w,
    (streamClaudeResponse w reply).2 = w ++ map contentFrame texts ∧
    (streamClaudeResponse w reply).1.2 = upstreamError reply ∧
    (upstreamError reply = None → (streamClaudeResponse w reply).1.1 = concatText texts).
Proof.
  unfold upstreamError, streamClaudeResponse. destruct reply as [msg|status body].
  - exists []. intros w. simpl. by rewrite app_nil_r.
  - destruct (negb (status =? 200)).
    + exists []. intros w. simpl. by rewrite app_nil_r.
    + destruct (readLoop_forwards body) as (texts & err & Hloop).
      exists texts. intros w. by rewrite !Hloop.
Qed.

Lemma SendMessage_stream userID M cid upstream faults db db' frames :
  SendMessage userID (Some {| req_Message := M; req_ConversationID := cid |})
    upstream faults db = (db', EventStream frames) →
  ∃ conv db1 db2 history texts,
    userID ≠ EmptyString ∧ M ≠ EmptyString ∧ conv ≠ EmptyString ∧
    (cid = EmptyString ∧ createConversation (failCreate faults) userID M db = Some (conv, db1)
     ∨ cid ≠ EmptyString ∧ conv = cid ∧ db1 = db) ∧
    insertMessage (failSaveUser faults) conv "user" M db1 = Some db2 ∧
    getConversationMessages (failHistory faults) conv db2 = Some history ∧
    ((∃ msg, upstreamError (upstream (claudeRequest history)) = Some msg ∧ db' = db2 ∧
             frames = startFrame conv :: map contentFrame texts ++ [errorFrame msg conv])
     ∨ (upstreamError (upstream (claudeRequest history)) = None ∧
        insertMessage (failSaveAssistant faults) conv "assistant" (concatText texts) db2 = None ∧
        db' = db2 ∧
        frames = startFrame conv :: map contentFrame texts
                 ++ [errorFrame "Error saving response" conv])
     ∨ (upstreamError (upstream (claudeRequest history)) = None ∧
        ∃ db3, insertMessage (failSaveAssistant faults) conv "assistant" (concatText texts) db2
                 = Some db3 ∧
               db' = touchConversation (failTouch faults) conv db3 ∧
               frames = startFrame conv :: map contentFrame texts ++ [endFrame conv])).
Proof.
  unfold SendMessage. cbn [req_Message req_ConversationID]. intros Hsend.
  destruct (String.eqb_spec userID EmptyString) as [|HU]; [done|].
  destruct (String.eqb_spec M EmptyString) as [|HM]; [done|].
  destruct (if String.eqb cid EmptyString then _ else _) as [[conv db1]|] eqn:Hcreated;
    [|done].
  assert (conv ≠ EmptyString ∧
          (cid = EmptyString ∧
             createConversation (failCreate faults) userID M db = Some (conv, db1)
           ∨ cid ≠ EmptyString ∧ conv = cid ∧ db1 = db)) as [Hconv Hcid].
  { destruct (String.eqb_spec cid EmptyString) as [->|Hne].
    - split; [|by left].
      apply createConversation_Some in Hcreated as [-> _]. apply uuid_nonempty.
    - injection Hcreated as <- <-. auto. }
  clear Hcreated.
  destruct (insertMessage (failSaveUser faults) conv "user" M db1) as [db2|] eqn:Huser; [|done].
  destruct (getConversationMessages (failHistory faults) conv db2) as [history|] eqn:Hhist;
    [|done].
  destruct (streamClaudeResponse_forwards (upstream (claudeRequest history)))
    as [texts Hstream].
  specialize (Hstream [formatStreamEvent "start" EmptyString conv]).
  destruct (streamClaudeResponse _ _) as [[full err] w1].
  cbn [fst snd] in Hstream. destruct Hstream as (-> & Herr & Hfull).
  exists conv, db1, db2, history, texts.
  repeat (split; [done|]). rewrite <- Herr.
  destruct err as [msg|].
  - injection Hsend as <- <-. left. by exists msg.
  - rewrite (Hfull (eq_sym Herr)) in Hsend.
    destruct (insertMessage (failSaveAssistant faults) conv "assistant" _ db2)
      as [db3|] eqn:Hassist; injection Hsend as <- <-.
    + right. right. split; [done|]. by exists db3.
    + right. left. done.
Qed.

(** C9.  An empty inbound message is answered with 400 before any
    statement runs: the store is returned as it was, with or without a
    conversation id. *)
Theorem empty_message_rejected userID cid upstream faults db :
  userID ≠ EmptyString →
  SendMessage userID (Some {| req_Message := EmptyString; req_ConversationID := cid |})
    upstream faults db = (db, HttpError (errorBody "Message is required") 400).
Proof.
  intros HU. unfold SendMessage. by destruct (String.eqb_spec userID EmptyString).
Qed.

Lemma readLoop_error body : ∀ fullResponse w,
  (readLoop body fullResponse w).1.2 = Reading.bodyError body.
Proof.
  induction body as [|[chunk err] body IH]; intros acc w; [done|].
  cbn [readLoop Reading.bodyError].
  destruct (if (0 <? String.length chunk)%nat then _ else _) as [acc1 w1].
  destruct err as [[|msg]|]; [done..|apply IH].
Qed.

Lemma upstreamError_completes reply :
  upstreamError reply = None ↔ Reading.completes reply = true.
Proof.
  unfold upstreamError, streamClaudeResponse, Reading.completes.
  destruct reply as [msg|status body]; [done|].
  destruct (status =? 200); cbn [negb andb]; [|done].
  rewrite readLoop_error. by destruct (Reading.bodyError body).
Qed.

Lemma SendMessage_accepts userID M cid upstream faults db :
  if Reading.accepts userID M cid faults db then
    ∃ conv db1 db2,
      userID ≠ EmptyString ∧ M ≠ EmptyString ∧
      (if String.eqb cid EmptyString
       then createConversation (failCreate faults) userID M db
       else Some (cid, db)) = Some (conv, db1) ∧
      messages db1 = messages db ∧
      insertMessage (failSaveUser faults) conv "user" M db1 = Some db2
  else
    messages (SendMessage userID (Some {| req_Message := M; req_ConversationID := cid |})
                upstream faults db).1 = messages db.
Proof.
  unfold Reading.accepts, SendMessage. cbn [req_Message req_ConversationID].
  destruct (String.eqb_spec userID EmptyString) as [|HU]; [done|].
  destruct (String.eqb_spec M EmptyString) as [|HM]; [done|].
  cbn [negb andb].
  destruct (String.eqb cid EmptyString).
  - unfold createConversation, insertConversation.
    destruct (failCreate faults); [done|]. cbn [negb andb].
    case_bool_decide; [|done].
    set (db1 := {| users := users db; conversations := _; messages := messages db;
                   serial := _; clock := _ |}).
    assert (∀ fail, insertMessage fail (uuid (serial db)) "user" M db1 =
              if fail then None
              else Some {| users := users db1; conversations := conversations db1;
                           messages := messages db1 ++
                             [{| msg_ID := uuid (serial db1);
                                 msg_ConversationID := uuid (serial db);
                                 msg_Role := "user"; msg_Content := M;
                                 msg_CreatedAt := clock db1 |}];
                           serial := S (serial db1); clock := clock db1 + 1 |}) as Hins.
    { intros fail. unfold insertMessage. destruct fail; [done|].
      assert (existsb (fun c => String.eqb (conv_ID c) (uuid (serial db)))
                (conversations db1) = true) as ->; [|done].
      subst db1. cbn [conversations]. rewrite existsb_app. cbn [existsb conv_ID].
      by rewrite String.eqb_refl, orb_true_r. }
    rewrite Hins. destruct (failSaveUser faults); [done|]. cbn [negb andb].
    eexists _, db1, _. by rewrite Hins.
  - unfold insertMessage.
    destruct (failSaveUser faults); [by rewrite andb_false_r|].
    destruct (existsb _ (conversations db)) eqn:Hex; cbn [negb andb]; [|done].
    eexists cid, db, _. repeat (split; [done|]). by rewrite Hex.
Qed.

(** C2, as the code has it.  A call of [SendMessage] stores the inbound
    message, as one row of role [user], exactly when it is accepted: the
    subject is known, the message is not empty, the conversation exists or
    is created, and the insert does not fail.  An accepted call stores after
    it one more row exactly when the history query succeeds, the upstream
    call completes (status 200, body read to its end without a read error)
    and the second insert does not fail; that row has role [assistant] and
    its content is the concatenation in order of the texts of the [content]
    frames sent.  No other message row is written. *)
Theorem relay_round_trip userID M cid upstream faults db db' response :
  SendMessage userID (Some {| req_Message := M; req_ConversationID := cid |})
    upstream faults db = (db', response) →
  if Reading.accepts userID M cid faults db then
    ∃ conv u,
      msg_Role u = "user" ∧ msg_Content u = M ∧ msg_ConversationID u = conv ∧
      (cid ≠ EmptyString → conv = cid) ∧
      if negb (failHistory faults)
         && Reading.completes
              (upstream (claudeRequest (Reading.conversationRows conv (messages db ++ [u]))))
         && negb (failSaveAssistant faults)
      then
        ∃ a, messages db' = messages db ++ [u; a] ∧
             msg_Role a = "assistant" ∧ msg_ConversationID a = conv ∧
             msg_Content a = forwardedText (framesOf response)
      else messages db' = messages db ++ [u]
  else messages db' = messages db.
Proof.
  intros Hsend. pose proof (SendMessage_accepts userID M cid upstream faults db) as Hacc.
  destruct (Reading.accepts userID M cid faults db); [|by rewrite Hsend in Hacc].
  destruct Hacc as (conv & db1 & db2 & HU & HM & Hc & Hdb1 & Huser).
  unfold SendMessage in Hsend. cbn [req_Message req_ConversationID] in Hsend.
  destruct (String.eqb_spec userID EmptyString); [done|].
  destruct (String.eqb_spec M EmptyString); [done|].
  rewrite Hc, Huser in Hsend.
  assert (cid ≠ EmptyString → conv = cid) as Hsame.
  { intros Hne. destruct (String.eqb_spec cid EmptyString); [done|]. congruence. }
  clear Hc.
  apply insertMessage_Some in Huser
    as (_ & Hexists & _ & Hconvs & u & Hmsgs & Hu1 & Hu2 & Hu3).
  rewrite Hdb1 in Hmsgs. exists conv, u. repeat (split; [done|]).
  unfold getConversationMessages, selectMessages in Hsend. rewrite Hmsgs in Hsend.
  fold (Reading.conversationRows conv (messages db ++ [u])) in Hsend.
  destruct (failHistory faults); cbn [negb andb].
  { by injection Hsend as <- _. }
  destruct (streamClaudeResponse_forwards
              (upstream (claudeRequest (Reading.conversationRows conv (messages db ++ [u])))))
    as [texts Hstream].
  specialize (Hstream [formatStreamEvent "start" EmptyString conv]).
  pose proof (upstreamError_completes
                (upstream (claudeRequest (Reading.conversationRows conv (messages db ++ [u])))))
    as Hcomp.
  destruct (streamClaudeResponse _ _) as [[full err] w1].
  cbn [fst snd] in Hstream. destruct Hstream as (-> & Herr & Hfull).
  rewrite <- Herr in Hcomp, Hfull. destruct err as [msg|].
  - destruct (Reading.completes _); [discriminate (proj2 Hcomp eq_refl)|].
    cbn [andb]. by injection Hsend as <- _.
  - rewrite (proj1 Hcomp eq_refl). cbn [andb]. rewrite (Hfull eq_refl) in Hsend.
    unfold insertMessage in Hsend. rewrite Hconvs, Hexists in Hsend.
    destruct (failSaveAssistant faults); cbn [negb].
    + by injection Hsend as <- _.
    + injection Hsend as <- <-. rewrite touchConversation_messages. cbn [messages].
      eexists. rewrite Hmsgs, <- app_assoc. split; [reflexivity|].
      cbn [msg_Role msg_ConversationID msg_Content]. repeat (split; [done|]).
      symmetry. cbn [framesOf]. apply forwardedText_stream; by apply contentText_other.
Qed.

(** C7, as the code has it.  Every frame of a relay call is either a
    [content] frame, without [conversationId], or a [start], [end] or
    [error] frame, which carries the id of the conversation. *)
Theorem conversation_id_on_frames userID M cid upstream faults db db' frames :
  SendMessage userID (Some {| req_Message := M; req_ConversationID := cid |})
    upstream faults db = (db', EventStream frames) →
  ∃ conv, conv ≠ EmptyString ∧
    field "conversationId" (hd [] frames) = Some conv ∧
    ∀ frame, In frame frames →
      (field "type" frame = Some "content" ∧ field "conversationId" frame = None)
      ∨ ((field "type" frame = Some "start" ∨ field "type" frame = Some "end"
          ∨ field "type" frame = Some "error")
         ∧ field "conversationId" frame = Some conv).
Proof.
  intros Hsend.
  destruct (SendMessage_stream _ _ _ _ _ _ _ _ Hsend)
    as (conv & db1 & db2 & history & texts & _ & _ & Hconv & _ & _ & _ & Hout).
  assert (∀ ty text, field "type" (formatStreamEvent ty text conv) = Some ty ∧
            field "conversationId" (formatStreamEvent ty text conv) = Some conv) as Hf.
  { intros ty text. destruct (fields_of_event ty text conv) as [-> ->].
    by destruct (String.eqb_spec conv EmptyString). }
  assert (∃ ty text, (ty = "end" ∨ ty = "error") ∧
            frames = startFrame conv :: map contentFrame texts
                     ++ [formatStreamEvent ty text conv]) as (ty & text & Hty & ->).
  { destruct Hout as [(msg & _ & _ & ->)|[(_ & _ & _ & ->)|(_ & db3 & _ & _ & ->)]];
      eauto 10. }
  unfold startFrame. exists conv. split; [done|]. split; [apply Hf|].
  intros frame [<-|Hin].
  - right. destruct (Hf "start" EmptyString) as [-> ->]. auto.
  - apply in_app_or in Hin as [Hin|[<-|[]]].
    + apply in_map_iff in Hin as (t & <- & _). left. unfold contentFrame.
      destruct (fields_of_event "content" t EmptyString) as [-> ->]. done.
    + right. destruct (Hf ty text) as [-> ->]. destruct Hty as [-> | ->]; auto.
Qed.


End Relay.

(** ** The handlers on concrete input *)

Import Inputs.

Lemma history_hides_foreign_conversations_witness :
  GetHistory "bob" "id-0" noFaults store
    = HttpError (errorBody "Conversation not found") 404
  ∧ GetHistory "bob" "id-7" noFaults store = GetHistory "bob" "id-0" noFaults store.
Proof.
  destruct (history_hides_foreign_conversations "bob" "id-0" "id-7" noFaults noFaults store)
    as (H1 & H2 & _).
  - discriminate.
  - discriminate.
  - discriminate.
  - intros c [<-|[]] _. discriminate.
  - intros c [<-|[]]. discriminate.
  - split; [exact H1|exact H2].
Defined.

Lemma empty_message_rejected_witness :
  SendMessage "alice" (Some {| req_Message := EmptyString; req_ConversationID := "id-0" |})
    (answers [(deltaLine "Hi", None)]) noFaults store
  = (store, HttpError (errorBody "Message is required") 400).
Proof. apply empty_message_rejected. discriminate. Defined.

Lemma relay_round_trip_witness :
  ∃ conv u a,
    messages (SendMessage "alice"
                (Some {| req_Message := "Hello"; req_ConversationID := EmptyString |})
                (answers [(deltaLine "Hi" ++ deltaLine " there", None)])%string
                noFaults store).1
      = messages store ++ [u; a] ∧
    msg_Role u = "user" ∧ msg_Content u = "Hello" ∧ msg_ConversationID u = conv ∧
    msg_Role a = "assistant" ∧ msg_ConversationID a = conv ∧
    msg_Content a = "Hi there".
Proof.
  pose proof (relay_round_trip "alice" "Hello" EmptyString
                (answers [(deltaLine "Hi" ++ deltaLine " there", None)])%string
                noFaults store _ _ (surjective_pairing _)) as H.
  assert (Reading.accepts "alice" "Hello" EmptyString noFaults store = true) as Hacc
    by (vm_compute; reflexivity).
  rewrite Hacc in H. destruct H as (conv & u & H1 & H2 & H3 & _ & H).
  change (∃ a, messages (SendMessage "alice"
                (Some {| req_Message := "Hello"; req_ConversationID := EmptyString |})
                (answers [(deltaLine "Hi" ++ deltaLine " there", None)])%string
                noFaults store).1 = messages store ++ [u; a] ∧
               msg_Role a = "assistant" ∧ msg_ConversationID a = conv ∧
               msg_Content a = "Hi there") in H.
  destruct H as (a & H4 & H5 & H6 & H7).
  exists conv, u, a. repeat (split; [assumption|]). exact H7.
Defined.

(** C2 as stated fails on both counts.  A call that names a conversation
    id no conversation has is answered with 500 and stores no user message;
    a call whose upstream reply completes, but whose second insert fails,
    sends the [error] frame and stores no assistant message. *)
Lemma relay_call_without_its_rows :
  SendMessage "alice" (Some {| req_Message := "Hello"; req_ConversationID := "id-9" |})
    (answers [(deltaLine "Hi", None)]) noFaults store
  = (store, HttpError (errorBody "Error saving message") 500)
  ∧ ∃ u,
      Reading.completes (Reply 200 [(deltaLine "Hi", None)]) = true ∧
      SendMessage "alice" (Some {| req_Message := "Hello"; req_ConversationID := "id-0" |})
        (answers [(deltaLine "Hi", None)])
        {| failCreate := false; failSaveUser := false; failHistory := false;
           failSaveAssistant := true; failTouch := false; failExists := false |} store
      = ({| users := users store; conversations := conversations store;
            messages := [u]; serial := 2; clock := 2 |},
         EventStream [startFrame "id-0"; contentFrame "Hi";
                      errorFrame "Error saving response" "id-0"])
      ∧ msg_Role u = "user" ∧ msg_Content u = "Hello".
Proof.
  split; [vm_compute; reflexivity|]. eexists. split; [vm_compute; reflexivity|].
  split; [vm_compute; reflexivity|]. split; reflexivity.
Qed.

Lemma conversation_id_on_frames_witness :
  ∃ conv, conv ≠ EmptyString ∧
    ∀ frame,
      In frame [startFrame "id-0"; contentFrame "Hi"; errorFrame "connection reset" "id-0"] →
      (field "type" frame = Some "content" ∧ field "conversationId" frame = None)
      ∨ ((field "type" frame = Some "start" ∨ field "type" frame = Some "end"
          ∨ field "type" frame = Some "error")
         ∧ field "conversationId" frame = Some conv).
Proof.
  edestruct (conversation_id_on_frames "alice" "More" "id-0"
               (answers [(deltaLine "Hi", Some (Broken "connection reset"))]) noFaults store)
    as (conv & H1 & _ & H2).
  - vm_compute. reflexivity.
  - exists conv. split; [exact H1|exact H2].
Defined.

(** C7 as stated fails: the [end] frame of a relay call carries the
    conversation id. *)
Lemma end_frame_carries_conversation_id :
  ¬ (∀ frame,
       In frame (framesOf (SendMessage "alice"
                   (Some {| req_Message := "Hello"; req_ConversationID := EmptyString |})
                   (answers [(deltaLine "Hi", None)]) noFaults store).2) →
       field "type" frame ≠ Some "start" → field "conversationId" frame = None).
Proof.
  intros H. specialize (H (endFrame "id-1")).
  assert (field "conversationId" (endFrame "id-1") = None) as Hno; [|discriminate Hno].
  apply H; [|discriminate]. vm_compute. auto.
Qed.



(** C3 on the code.  The sentinel ends the scan of the chunk it is read
    in, not the reading of the stream: the line after it in the same chunk
    is dropped, the frame arriving with the next read is accumulated and
    forwarded. *)
Theorem sentinel_ends_only_its_chunk :
  streamClaudeResponse []
    (Reply 200 [((doneLine ++ deltaLine "same")%string, None); (deltaLine "late", None)])
  = ("late", None, [contentFrame "late"]).
Proof. vm_compute. reflexivity. Qed.

(** C4 on the code.  A frame that arrives whole is accumulated and
    forwarded; the same bytes arriving in two reads are lost. *)
Theorem split_frame_is_lost :
  (String.substring 0 40 (deltaLine "Hi") ++ String.substring 40 100 (deltaLine "Hi"))%string
    = deltaLine "Hi"
  ∧ streamClaudeResponse [] (Reply 200 [(deltaLine "Hi", None)])
    = ("Hi", None, [contentFrame "Hi"])
  ∧ streamClaudeResponse []
      (Reply 200 [(String.substring 0 40 (deltaLine "Hi"), None);
                  (String.substring 40 100 (deltaLine "Hi"), None)])
    = (EmptyString, None, []).
Proof. repeat split; vm_compute; reflexivity. Qed.

End HandlersSpec.

(** * Further properties of the rate limiter *)

Module MiddlewareMore.
Import Middleware Traces MiddlewareSpec.
Local Open Scope list_scope.

Implicit Types (vs : gmap string visitor) (tr : list (Z * event)).

Lemma RateLimiter_local limit window now k vs1 vs2 :
  vs1 !! k = vs2 !! k →
  (RateLimiter limit window now k vs1).2 = (RateLimiter limit window now k vs2).2
  ∧ (RateLimiter limit window now k vs1).1 !! k
    = (RateLimiter limit window now k vs2).1 !! k.
Proof.
  intros Heq. unfold RateLimiter. rewrite <- Heq.
  destruct (vs1 !! k) as [v|] eqn:Hk;
    [destruct (window <? _); [|destruct (limit <=? _)]|];
    simpl; rewrite ?lookup_insert_eq; split; congruence.
Qed.

Lemma run_counts limit window tr : ∀ vs,
  (∀ k v, vs !! k = Some v → 1 <= count v <= Z.max 1 limit) →
  ∀ k v, (run limit window tr vs).1 !! k = Some v → 1 <= count v <= Z.max 1 limit.
Proof.
  induction tr as [|[now [ip|]] tr IH]; intros vs Hinv.
  - done.
  - rewrite run_request. cbn [fst]. apply IH. by apply count_bounded.
  - cbn [run]. apply IH. intros k v Hk. rewrite cleanup_lookup in Hk.
    destruct (vs !! k) as [u|] eqn:Hu; [|done]. destruct (decide _); [done|].
    injection Hk as <-. by eapply Hinv.
Qed.

(** X1.  Along any trace of requests and cleanup ticks of a limiter, every
    record keeps a count between 1 and the limit (1 when the limit is
    lower). *)
Theorem counts_stay_within_limit limit window tr vs k v :
  (∀ k' v', vs !! k' = Some v' → 1 <= count v' <= Z.max 1 limit) →
  (run limit window tr vs).1 !! k = Some v →
  1 <= count v <= Z.max 1 limit.
Proof. intros Hinv. by apply run_counts. Qed.

Lemma counts_stay_within_limit_witness :
  1 <= count (Visitor 1 2) <= Z.max 1 2.
Proof.
  apply (counts_stay_within_limit 2 10
           [(0, Request "10.0.0.1:5000"); (1, Request "10.0.0.1:5000");
            (2, Request "10.0.0.1:5000"); (3, Tick)] ∅ "10.0.0.1:5000").
  - intros k' v' H. by rewrite lookup_empty in H.
  - vm_compute. reflexivity.
Defined.


Lemma own_isolated limit window k tr : ∀ vs1 vs2,
  StronglySorted Z.le (map fst tr) →
  (vs1 !! k = vs2 !! k
   ∨ vs1 !! k = None
     ∧ ∃ v, vs2 !! k = Some v ∧ ∀ t, In t (map fst tr) → window < since t (lastSeen v)) →
  outcomes k (run limit window tr vs1).2
  = outcomes k (run limit window (own k tr) vs2).2.
Proof.
  induction tr as [|[now [ip|]] tr IH]; intros vs1 vs2 Hsorted Hrel.
  - done.
  - apply StronglySorted_inv in Hsorted as [Hsorted Hnow].
    destruct (decide (ip = k)) as [->|Hne].
    + unfold own. cbn [List.filter snd]. rewrite bool_decide_eq_true_2 by done.
      fold (own k tr). rewrite !run_request. cbn [snd]. rewrite !outcomes_cons_eq.
      assert ((RateLimiter limit window now k vs1).2
                = (RateLimiter limit window now k vs2).2
              ∧ (RateLimiter limit window now k vs1).1 !! k
                = (RateLimiter limit window now k vs2).1 !! k) as [-> Hk].
      { destruct Hrel as [Heq|(Hnone & v & Hv & Hstale)];
          [by apply RateLimiter_local|].
        unfold RateLimiter. rewrite Hnone, Hv.
        assert ((window <? since now (lastSeen v)) = true) as ->
          by (apply Z.ltb_lt, Hstale; simpl; auto).
        simpl. by rewrite !lookup_insert_eq. }
      f_equal. apply IH; [done|by left].
    + unfold own. cbn [List.filter snd]. rewrite bool_decide_eq_false_2 by done.
      fold (own k tr). rewrite run_request. cbn [snd].
      rewrite outcomes_cons_ne by done. apply IH; [done|].
      rewrite RateLimiter_other by done.
      destruct Hrel as [Heq|(Hnone & v & Hv & Hstale)]; [by left|right].
      split; [done|]. exists v. split; [done|]. intros t Ht. apply Hstale. simpl; auto.
  - apply StronglySorted_inv in Hsorted as [Hsorted Hnow].
    unfold own. cbn [List.filter snd]. fold (own k tr). cbn [run].
    apply IH; [done|]. rewrite cleanup_lookup.
    destruct Hrel as [Heq|(Hnone & v & Hv & Hstale)].
    + destruct (vs1 !! k) as [v|] eqn:Hv; [|by left].
      destruct (decide (window < since now (lastSeen v))) as [Hold|]; [|by left].
      right. split; [done|]. exists v. split; [done|]. intros t Ht.
      pose proof (proj1 (List.Forall_forall _ _) Hnow t Ht) as Hle.
      simpl in Hle. unfold since in *. lia.
    + rewrite Hnone. right. split; [done|]. exists v. split; [done|].
      intros t Ht. apply Hstale. simpl; auto.
Qed.

(** X2.  In a trace whose instants do not decrease, the outcomes of a
    client's requests are those of its own requests run alone, on any map
    that holds the same record for it: other clients' requests and the
    cleanup ticks never change them. *)
Theorem outcomes_depend_on_own_requests limit window k tr vs vs' :
  StronglySorted Z.le (map fst tr) →
  vs' !! k = vs !! k →
  outcomes k (run limit window tr vs).2
  = outcomes k (run limit window (own k tr) vs').2.
Proof. intros Hsorted Hk. apply own_isolated; [done|by left]. Qed.

Lemma outcomes_depend_on_own_requests_witness :
  outcomes "10.0.0.1:5000"
    (run 1 10 [(0, Request "10.0.0.1:5000"); (5, Request "10.0.0.9:80"); (20, Tick);
               (21, Request "10.0.0.1:5000")] {[ "10.0.0.9:80" := Visitor 0 1 ]}).2
  = outcomes "10.0.0.1:5000"
      (run 1 10 [(0, Request "10.0.0.1:5000"); (21, Request "10.0.0.1:5000")] ∅).2.
Proof.
  apply (outcomes_depend_on_own_requests 1 10 "10.0.0.1:5000"
           [(0, Request "10.0.0.1:5000"); (5, Request "10.0.0.9:80"); (20, Tick);
            (21, Request "10.0.0.1:5000")]).
  - simpl. repeat first [apply SSorted_nil | apply SSorted_cons
                         | apply List.Forall_nil | apply List.Forall_cons | lia].
  - reflexivity.
Defined.

Lemma chained_outcomes limit window k ts : ∀ vs t0 c,
  vs !! k = Some (Visitor t0 c) →
  1 <= c <= limit →
  chained window (t0 :: ts) →
  (length ts <= Z.to_nat (limit - c) + 1)%nat →
  outcomes k (run limit window (requestsAt k ts) vs).2
  = replicate (min (Z.to_nat (limit - c)) (length ts)) true
    ++ replicate (length ts - Z.to_nat (limit - c)) false.
Proof.
  induction ts as [|t ts IH]; intros vs t0 c Hk Hc Hch Hlen.
  - simpl. by rewrite Nat.min_0_r.
  - destruct Hch as [Hgap Hch]. unfold requestsAt. cbn [map]. fold (requestsAt k ts).
    rewrite run_request. cbn [snd]. rewrite outcomes_cons_eq.
    unfold RateLimiter. rewrite Hk. cbn [lastSeen count]. unfold since.
    assert ((window <? t - t0) = false) as -> by (apply Z.ltb_ge; lia).
    destruct (limit <=? c) eqn:Hfull.
    + apply Z.leb_le in Hfull. replace (Z.to_nat (limit - c)) with 0%nat in * by lia.
      destruct ts as [|t' ts]; [done|]. simpl in Hlen. lia.
    + apply Z.leb_gt in Hfull. cbn [fst snd].
      rewrite (IH _ t (c + 1)); [|by rewrite lookup_insert_eq|lia|done|simpl in Hlen; lia].
      replace (Z.to_nat (limit - c)) with (S (Z.to_nat (limit - (c + 1)))) by lia.
      done.
Qed.

(** X3.  The window restarts at every admitted request: when each request
    of a new client comes at most one window after the one before it, the
    first [limit] requests are admitted and the next one is denied, however
    long the whole run lasts. *)
Theorem window_slides_with_admitted_requests limit window k ts vs :
  1 <= limit →
  vs !! k = None →
  chained window ts →
  (length ts <= Z.to_nat limit + 1)%nat →
  outcomes k (run limit window (requestsAt k ts) vs).2
  = replicate (min (Z.to_nat limit) (length ts)) true
    ++ replicate (length ts - Z.to_nat limit) false.
Proof.
  intros Hlim Hk Hch Hlen. destruct ts as [|t ts]; [by rewrite Nat.min_0_r|].
  unfold requestsAt. cbn [map]. fold (requestsAt k ts).
  rewrite run_request. cbn [snd]. rewrite outcomes_cons_eq.
  unfold RateLimiter. rewrite Hk. cbn [fst snd].
  rewrite (chained_outcomes limit window k ts _ t 1);
    [|by rewrite lookup_insert_eq|lia|done|simpl in Hlen; lia].
  replace (Z.to_nat limit) with (S (Z.to_nat (limit - 1))) by lia. done.
Qed.

Lemma window_slides_with_admitted_requests_witness :
  outcomes "10.0.0.1:5000"
    (run 3 10 (requestsAt "10.0.0.1:5000" [0; 9; 18; 27]) ∅).2
  = [true; true; true; false].
Proof.
  apply (window_slides_with_admitted_requests 3 10 "10.0.0.1:5000" [0; 9; 18; 27] ∅).
  - lia.
  - reflexivity.
  - simpl. lia.
  - simpl. lia.
Defined.


Lemma serve_cons r now rs k vs :
  serve ((r, now) :: rs) k vs =
    ((serve rs k (limiter r now k vs).1).1,
     (limiter r now k vs).2 :: (serve rs k (limiter r now k vs).1).2).
Proof.
  simpl. destruct (limiter r now k vs) as [vs1 ok]. simpl.
  by destruct (serve rs k vs1).
Qed.

Lemma sameRoute_true a b : sameRoute a b = true → a = b.
Proof. by destruct a, b. Qed.

Lemma route_limit_positive r : 1 <= route_limit r.
Proof. destruct r; simpl; lia. Qed.

Lemma admitted_in_window r rs : ∀ vs k v,
  vs !! k = Some v →
  (∀ t, In t (map snd rs) → since t (lastSeen v) <= minute) →
  (∀ t t', In t (map snd rs) → In t' (map snd rs) → t' - t <= minute) →
  (admittedOn r rs (serve rs k vs).2 <= Z.to_nat (route_limit r - count v))%nat.
Proof.
  induction rs as [|[r' now] rs IH]; intros vs k v Hk Hseen Hpair; [simpl; lia|].
  rewrite serve_cons. cbn [snd admittedOn].
  assert (∀ t t', In t (map snd rs) → In t' (map snd rs) → t' - t <= minute) as Hpair'
    by (intros t t' Ht Ht'; apply Hpair; simpl; auto).
  unfold limiter, RateLimiter, route_window. rewrite Hk.
  assert ((minute <? since now (lastSeen v)) = false) as ->
    by (apply Z.ltb_ge, Hseen; simpl; auto).
  destruct (route_limit r' <=? count v) eqn:Hfull; cbn [fst snd].
  - simpl. apply (IH vs k v); [done| |done]. intros t Ht. apply Hseen. simpl; auto.
  - apply Z.leb_gt in Hfull.
    assert (admittedOn r rs
              (serve rs k (<[k:=Visitor now (count v + 1)]> vs)).2
            <= Z.to_nat (route_limit r - (count v + 1)))%nat as Hrest.
    { apply (IH _ k (Visitor now (count v + 1))); [by rewrite lookup_insert_eq| |done].
      intros t Ht. unfold since. simpl. apply Hpair; simpl; auto. }
    destruct (sameRoute r' r) eqn:Hsame; simpl; [|lia].
    apply sameRoute_true in Hsame as ->. lia.
Qed.

Lemma admitted_from_any_record r rs : ∀ vs k,
  match vs !! k with Some v => 1 <= count v | None => True end →
  (∀ t t', In t (map snd rs) → In t' (map snd rs) → t' - t <= minute) →
  (admittedOn r rs (serve rs k vs).2 <= Z.to_nat (route_limit r))%nat.
Proof.
  induction rs as [|[r' now] rs IH]; intros vs k Hcount Hpair; [simpl; lia|].
  rewrite serve_cons. cbn [snd admittedOn].
  assert (∀ t t', In t (map snd rs) → In t' (map snd rs) → t' - t <= minute) as Hpair'
    by (intros t t' Ht Ht'; apply Hpair; simpl; auto).
  pose proof (route_limit_positive r) as Hpos.
  assert (∀ c, 1 <= c → (c = 1 ∨ sameRoute r' r = true → c <= route_limit r) →
            ((if true && sameRoute r' r then 1 else 0)
             + admittedOn r rs (serve rs k (<[k:=Visitor now c]> vs)).2
             <= Z.to_nat (route_limit r))%nat) as Hadmit.
  { intros c Hc Hle.
    assert (admittedOn r rs (serve rs k (<[k:=Visitor now c]> vs)).2
            <= Z.to_nat (route_limit r - c))%nat as Hrest.
    { apply (admitted_in_window r rs _ k (Visitor now c));
        [by rewrite lookup_insert_eq| |done].
      intros t Ht. unfold since. simpl. apply Hpair; simpl; auto. }
    destruct (sameRoute r' r) eqn:Hsame; simpl; [|lia].
    specialize (Hle (or_intror eq_refl)). lia. }
  unfold limiter, RateLimiter, route_window.
  destruct (vs !! k) as [v|] eqn:Hk; cbn [fst snd].
  - destruct (minute <? since now (lastSeen v)); cbn [fst snd].
    { apply Hadmit; [lia|]. intros _. lia. }
    destruct (route_limit r' <=? count v) eqn:Hfull; cbn [fst snd].
    + simpl. apply IH; [by rewrite Hk|done].
    + apply Z.leb_gt in Hfull. apply Hadmit; [lia|].
      intros [?|Hsame]; [lia|]. apply sameRoute_true in Hsame as <-. lia.
  - apply Hadmit; [lia|]. intros _. lia.
Qed.

(** X4.  Although the three limiters count in one map, each route class
    admits at most its own limit of a client's requests within one window,
    whatever the order in which the client uses the routes. *)
Theorem route_admits_at_most_its_limit r rs k vs :
  match vs !! k with Some v => 1 <= count v | None => True end →
  (∀ t t', In t (map snd rs) → In t' (map snd rs) → t' - t <= minute) →
  (admittedOn r rs (serve rs k vs).2 <= Z.to_nat (route_limit r))%nat.
Proof. apply admitted_from_any_record. Qed.

Lemma route_admits_at_most_its_limit_witness :
  Nat.le
    (admittedOn Auth
       [(Dashboard, 0); (Auth, 1); (Auth, 2); (Dashboard, 3); (Auth, 4); (Auth, 5);
        (Auth, 6)]
       (serve [(Dashboard, 0); (Auth, 1); (Auth, 2); (Dashboard, 3); (Auth, 4);
               (Auth, 5); (Auth, 6)] "10.0.0.1:5000" ∅).2)
    5%nat.
Proof.
  apply (route_admits_at_most_its_limit Auth
           [(Dashboard, 0); (Auth, 1); (Auth, 2); (Dashboard, 3); (Auth, 4); (Auth, 5);
            (Auth, 6)] "10.0.0.1:5000" ∅).
  - exact I.
  - intros t t' Ht Ht'. simpl in Ht, Ht'. unfold minute. intuition lia.
Defined.

End MiddlewareMore.

(** * Properties of the authentication code *)

Module AuthSpec.
Import Auth.
Local Open Scope list_scope.

(** ** Prefixes *)

Lemma append_cons a (s t : string) : (String a s ++ t)%string = String a (s ++ t)%string.
Proof. reflexivity. Qed.

Lemma substring_all s : String.substring 0 (String.length s) s = s.
Proof. induction s as [|a s IH]; simpl; [done|by rewrite IH]. Qed.

Lemma HasPrefix_empty s : HasPrefix s EmptyString = true.
Proof. by destruct s. Qed.

Lemma HasPrefix_app p rest : HasPrefix (p ++ rest)%string p = true.
Proof.
  induction p as [|a p IH]; [apply HasPrefix_empty|].
  unfold HasPrefix in *. rewrite append_cons. simpl. by destruct (ascii_dec a a).
Qed.

Lemma TrimPrefix_app p rest : TrimPrefix (p ++ rest)%string p = rest.
Proof.
  unfold TrimPrefix. rewrite HasPrefix_app.
  induction p as [|a p IH].
  - change (EmptyString ++ rest)%string with rest. simpl.
    rewrite Nat.sub_0_r. apply substring_all.
  - rewrite append_cons. simpl. exact IH.
Qed.

Lemma prefix_split p : ∀ s,
  String.prefix p s = true →
  s = (p ++ String.substring (String.length p) (String.length s - String.length p) s)%string.
Proof.
  induction p as [|a p IH]; intros s Hp.
  - simpl. rewrite Nat.sub_0_r. by rewrite substring_all.
  - destruct s as [|b s]; simpl in Hp; [done|].
    destruct (ascii_dec a b) as [->|]; [|done].
    rewrite append_cons. simpl. f_equal. by apply IH.
Qed.

Lemma HasPrefix_split s p : HasPrefix s p = true → s = (p ++ TrimPrefix s p)%string.
Proof. intros Hp. unfold TrimPrefix. rewrite Hp. by apply prefix_split. Qed.

Lemma string_length_app (a b : string) :
  String.length (a ++ b)%string = (String.length a + String.length b)%nat.
Proof.
  induction a as [|x a IH]; [done|]. rewrite append_cons. simpl. by rewrite IH.
Qed.

Lemma TrimPrefix_same s p :
  p ≠ EmptyString → (TrimPrefix s p = s ↔ HasPrefix s p = false).
Proof.
  intros Hp. split.
  - intros Heq. destruct (HasPrefix s p) eqn:Hpre; [|done].
    apply HasPrefix_split in Hpre. rewrite Heq in Hpre.
    apply (f_equal String.length) in Hpre. rewrite string_length_app in Hpre.
    destruct p; [done|]. simpl in Hpre. lia.
  - intros Hpre. unfold TrimPrefix. by rewrite Hpre.
Qed.

Section Middleware.
Context `{lib : AuthLib}.

Lemma AuthMiddleware_Next jwtSecret now authHeader userID :
  AuthMiddleware jwtSecret now authHeader = Next userID ↔
  ∃ token claims,
    authHeader = ("Bearer " ++ token)%string ∧
    jwtParse jwtSecret now token = Some claims ∧
    claims !! "user_id" = Some (ClaimString userID).
Proof.
  unfold AuthMiddleware. split.
  - destruct (String.eqb_spec authHeader EmptyString); [done|].
    destruct (String.eqb_spec (TrimPrefix authHeader "Bearer ") authHeader) as [|Hne];
      [done|].
    destruct (jwtParse _ _ _) as [claims|] eqn:Hparse; [|done].
    destruct (claims !! "user_id") as [[u|]|] eqn:Hu; try done.
    intros [= <-]. exists (TrimPrefix authHeader "Bearer "), claims.
    split; [|done]. apply HasPrefix_split.
    destruct (HasPrefix authHeader "Bearer ") eqn:Hpre; [done|].
    destruct Hne. by apply TrimPrefix_same.
  - intros (token & claims & -> & Hparse & Hu).
    destruct (String.eqb_spec ("Bearer " ++ token)%string EmptyString); [done|].
    rewrite TrimPrefix_app.
    destruct (String.eqb_spec token ("Bearer " ++ token)%string) as [Heq|].
    { apply (f_equal String.length) in Heq. rewrite string_length_app in Heq.
      simpl in Heq. lia. }
    by rewrite Hparse, Hu.
Qed.

Lemma AuthMiddleware_Answered jwtSecret now authHeader body status :
  AuthMiddleware jwtSecret now authHeader = Answered body status → status = 401.
Proof.
  unfold AuthMiddleware.
  destruct (String.eqb _ _); [by intros [= _ <-]|].
  destruct (String.eqb _ _); [by intros [= _ <-]|].
  destruct (jwtParse _ _ _) as [claims|]; [|by intros [= _ <-]].
  destruct (claims !! "user_id") as [[u|]|]; try done; by intros [= _ <-].
Qed.

(** X5.  [AuthMiddleware] calls the next handler exactly when the header
    is [Bearer ] followed by a token that parses under the secret to claims
    whose [user_id] is a string, and hands that string on; every other
    request is answered with status 401. *)
Theorem AuthMiddleware_admits_valid_bearer_tokens jwtSecret now authHeader :
  (∀ userID,
     AuthMiddleware jwtSecret now authHeader = Next userID ↔
     ∃ token claims,
       authHeader = ("Bearer " ++ token)%string ∧
       jwtParse jwtSecret now token = Some claims ∧
       claims !! "user_id" = Some (ClaimString userID))
  ∧ ∀ body status,
      AuthMiddleware jwtSecret now authHeader = Answered body status → status = 401.
Proof.
  split; [intros userID; apply AuthMiddleware_Next|apply AuthMiddleware_Answered].
Qed.

(** X6.  A token that [generateToken] issues for a user at the instant
    [now] is accepted by [AuthMiddleware] under the same secret from that
    instant until its expiry, seven days (604800 s) later, and yields that
    user's id.  The JWT library is relied on for one thing: a token it
    signed over the three claims of [generateToken] for this user and
    instant ([user_id], [exp] seven days on, [iat]) parses under the same
    secret, between issue and expiry, to claims with that [user_id]. *)
Theorem issued_token_is_accepted jwtSecret now later userID token :
  (∀ tok t,
     jwtSign jwtSecret
       (<["user_id" := ClaimString userID]>
          (<["exp" := ClaimNumber (now + 604800)]>
             (<["iat" := ClaimNumber now]> ∅))) = Some tok →
     now <= t < now + 604800 →
     ∃ claims', jwtParse jwtSecret t tok = Some claims' ∧
                claims' !! "user_id" = Some (ClaimString userID)) →
  generateToken jwtSecret now userID = Some token →
  now <= later < now + 604800 →
  AuthMiddleware jwtSecret later ("Bearer " ++ token)%string = Next userID.
Proof.
  intros Hlaw Hgen Hlater. unfold generateToken in Hgen.
  change (3600 * 24 * 7) with 604800 in Hgen.
  destruct (Hlaw token later Hgen Hlater) as (claims' & Hparse & Hu).
  apply AuthMiddleware_Next. by exists token, claims'.
Qed.

Lemma existsEmail_false email t :
  existsb (fun u => String.eqb (user_Email u) email) (rows t) = false →
  ¬ In email (map user_Email (rows t)).
Proof.
  intros Hex Hin. apply in_map_iff in Hin as (u & Hu & Hin).
  assert (existsb (fun u => String.eqb (user_Email u) email) (rows t) = true) as Htrue.
  { apply existsb_exists. exists u. split; [done|]. by apply String.eqb_eq. }
  congruence.
Qed.

Lemma find_new_row email (l : list User) u :
  ¬ In email (map user_Email l) → user_Email u = email →
  List.find (fun u => String.eqb (user_Email u) email) (l ++ [u]) = Some u.
Proof.
  intros Hnot Hu. induction l as [|x l IH]; simpl.
  - by rewrite Hu, String.eqb_refl.
  - destruct (String.eqb_spec (user_Email x) email) as [Hx|_].
    + destruct Hnot. simpl. auto.
    + apply IH. intros Hin. apply Hnot. simpl. auto.
Qed.

(** What [Register] does to the table: nothing, or one row appended for a
    request that passed every check. *)
Lemma Register_rows jwtSecret now salt body failExists failInsert t :
  (Register jwtSecret now salt body failExists failInsert t).1 = t
  ∨ ∃ req hash u,
      body = Some req ∧
      reg_Email req ≠ EmptyString ∧ reg_Name req ≠ EmptyString ∧
      (6 <= String.length (reg_Password req))%nat ∧
      ¬ In (reg_Email req) (map user_Email (rows t)) ∧
      bcryptGenerate salt (reg_Password req) = Some hash ∧
      u = {| user_ID := Models.uuid (nextUser t); user_Email := reg_Email req;
             user_Name := reg_Name req; user_Password := hash;
             user_CreatedAt := today t; user_UpdatedAt := today t |} ∧
      rows (Register jwtSecret now salt body failExists failInsert t).1 = rows t ++ [u] ∧
      ((Register jwtSecret now salt body failExists failInsert t).2
         = Failed (Handlers.errorBody "Error generating token") 500
       ∨ ∃ token, generateToken jwtSecret now (user_ID u) = Some token ∧
           (Register jwtSecret now salt body failExists failInsert t).2
             = Granted 201 token (encodeUser u)).
Proof.
  unfold Register. destruct body as [req|]; [|by left].
  destruct (String.eqb_spec (reg_Email req) EmptyString) as [|He]; [by left|].
  destruct (String.eqb_spec (reg_Password req) EmptyString) as [|Hp]; [by left|].
  destruct (String.eqb_spec (reg_Name req) EmptyString) as [|Hn]; [by left|].
  cbn [orb]. destruct (String.length (reg_Password req) <? 6)%nat eqn:Hlen; [by left|].
  apply Nat.ltb_ge in Hlen.
  unfold existsEmail. destruct failExists; [by left|].
  destruct (existsb _ (rows t)) eqn:Hex; [by left|].
  destruct (bcryptGenerate salt (reg_Password req)) as [hash|] eqn:Hhash; [|by left].
  unfold insertUser. destruct failInsert; [by left|]. rewrite Hex.
  right. eexists req, hash, _. do 4 (split; [done|]).
  split; [by apply existsEmail_false|]. split; [done|]. split; [reflexivity|].
  destruct (generateToken _ _ _) as [token|] eqn:Htok; cbn [fst snd rows].
  - split; [done|]. right. by exists token.
  - split; [done|]. by left.
Qed.

(** X7.  [Register] changes the table only by appending one row, and only
    for a request with a non-empty email and name, a password of at least
    six bytes and an email no row has; the row holds the email and name of
    the request and, as password, what [bcrypt] generated from the request's
    password. *)
Theorem Register_appends_one_hashed_row jwtSecret now salt body failExists failInsert t :
  (Register jwtSecret now salt body failExists failInsert t).1 = t
  ∨ ∃ req u,
      body = Some req ∧
      reg_Email req ≠ EmptyString ∧ reg_Name req ≠ EmptyString ∧
      (6 <= String.length (reg_Password req))%nat ∧
      ¬ In (reg_Email req) (map user_Email (rows t)) ∧
      rows (Register jwtSecret now salt body failExists failInsert t).1 = rows t ++ [u] ∧
      user_Email u = reg_Email req ∧ user_Name u = reg_Name req ∧
      bcryptGenerate salt (reg_Password req) = Some (user_Password u).
Proof.
  destruct (Register_rows jwtSecret now salt body failExists failInsert t)
    as [Hsame|(req & hash & u & Hb & He & Hn & Hl & Hnew & Hh & -> & Hrows & _)];
    [by left|right].
  exists req. eexists. do 5 (split; [done|]). split; [exact Hrows|].
  simpl. by rewrite Hh.
Qed.

(** X8.  [Register] keeps the emails of the table pairwise distinct. *)
Theorem Register_keeps_emails_unique jwtSecret now salt body failExists failInsert t :
  uniqueEmails t →
  uniqueEmails (Register jwtSecret now salt body failExists failInsert t).1.
Proof.
  intros Huniq.
  destruct (Register_rows jwtSecret now salt body failExists failInsert t)
    as [->|(req & hash & u & _ & _ & _ & _ & Hnew & _ & -> & Hrows & _)]; [done|].
  unfold uniqueEmails in *. rewrite Hrows, map_app. simpl.
  apply NoDup_app. split; [done|]. split.
  - intros x Hx Hk. apply list_elem_of_In in Hx, Hk. destruct Hk as [<-|[]]. done.
  - apply NoDup_singleton.
Qed.

(** X9.  After a registration that was granted, logging in with the same
    email and password finds the new account: the answer is 200 with the
    registered user, or the token error when signing fails.  [bcrypt] is
    taken to match a password with a hash generated from it. *)
Theorem Login_after_Register jwtSecret now salt req failExists failInsert t t' token user
    later :
  (∀ s password hash,
     bcryptGenerate s password = Some hash → bcryptCompare hash password = true) →
  Register jwtSecret now salt (Some req) failExists failInsert t
    = (t', Granted 201 token user) →
  Login jwtSecret later
    (Some {| login_Email := reg_Email req; login_Password := reg_Password req |}) false t'
  = match generateToken jwtSecret later (json_id user) with
    | Some token' => Granted 200 token' user
    | None => Failed (Handlers.errorBody "Error generating token") 500
    end.
Proof.
  intros Hbcrypt Hreg.
  destruct (Register_rows jwtSecret now salt (Some req) failExists failInsert t)
    as [Hsame|(req' & hash & u & [= <-] & He & Hn & Hl & Hnew & Hh & Hu & Hrows & Hreply)];
    rewrite Hreg in *; cbn [fst snd] in *.
  { exfalso. revert Hreg. unfold Register.
    destruct (_ || _); [done|]. destruct (_ <? _)%nat; [done|].
    destruct (existsEmail _ _ _) as [[|]|]; try done.
    destruct (bcryptGenerate _ _); [|done].
    destruct (insertUser _ _ _ _ _) as [[u1 t1]|] eqn:Hins; [|done].
    subst t'. revert Hins. unfold insertUser. destruct failInsert; [done|].
    destruct (existsb _ _); [done|]. intros [= <- Ht1].
    destruct (generateToken _ _ _); [|done]. intros [= Ht _ _].
    apply (f_equal rows) in Ht.
    rewrite <- Ht1 in Ht. simpl in Ht.
    apply (f_equal (@length User)) in Ht. rewrite List.length_app in Ht. simpl in Ht. lia. }
  destruct Hreply as [|(token' & _ & [= _ ->])]; [done|].
  unfold Login. cbn [login_Email login_Password].
  destruct (String.eqb_spec (reg_Email req) EmptyString); [done|].
  destruct (String.eqb_spec (reg_Password req) EmptyString) as [Hp|_].
  { rewrite Hp in Hl. simpl in Hl. lia. }
  cbn [orb]. unfold selectUser. rewrite Hrows.
  rewrite (find_new_row (reg_Email req) (rows t) u Hnew) by (by subst u).
  assert (user_Password u = hash) as -> by (by subst u).
  rewrite (Hbcrypt _ _ _ Hh). cbn [negb]. by subst u.
Qed.

(** X10.  [Login] answers an email that no row has exactly as it answers a
    known email with a password that does not match: the one 401
    response. *)
Theorem Login_hides_which_part_failed jwtSecret now unknown known password password' user t :
  unknown ≠ EmptyString → known ≠ EmptyString →
  password ≠ EmptyString → password' ≠ EmptyString →
  List.find (fun u => String.eqb (user_Email u) unknown) (rows t) = None →
  List.find (fun u => String.eqb (user_Email u) known) (rows t) = Some user →
  bcryptCompare (user_Password user) password' = false →
  Login jwtSecret now (Some {| login_Email := unknown; login_Password := password |}) false t
    = Failed (Handlers.errorBody "Invalid email or password") 401
  ∧ Login jwtSecret now (Some {| login_Email := known; login_Password := password' |}) false t
    = Login jwtSecret now (Some {| login_Email := unknown; login_Password := password |})
        false t.
Proof.
  intros Hu Hk Hp Hp' Hnone Hsome Hcmp. unfold Login, selectUser.
  cbn [login_Email login_Password]. rewrite Hnone, Hsome, Hcmp.
  destruct (String.eqb_spec unknown EmptyString); [done|].
  destruct (String.eqb_spec known EmptyString); [done|].
  destruct (String.eqb_spec password EmptyString); [done|].
  by destruct (String.eqb_spec password' EmptyString).
Qed.

End Middleware.

Lemma clocked_parse_until_expiry t :
  ClockedAuth.parse "k" t "k.604800.id-0" =
    if t <? 604800 then
      Some (<["user_id" := ClaimString "id-0"]> {[ "exp" := ClaimNumber 604800 ]})
    else None.
Proof.
  unfold ClockedAuth.parse.
  assert (ClockedAuth.opened "k" "k.604800.id-0" = Some (604800, "id-0")) as ->
    by (vm_compute; reflexivity).
  reflexivity.
Qed.

Lemma toy_matches_what_it_generates salt password hash :
  ToyAuth.generate salt password = Some hash → ToyAuth.compare hash password = true.
Proof.
  unfold ToyAuth.generate, ToyAuth.compare. destruct (_ <? _)%nat; [done|].
  intros [= <-]. by rewrite HasPrefix_app, TrimPrefix_app, HasPrefix_app.
Qed.

Lemma issued_token_is_accepted_witness :
  @generateToken ClockedAuth.lib "k" 0 "id-0" = Some "k.604800.id-0"
  ∧ @AuthMiddleware ClockedAuth.lib "k" 604799 "Bearer k.604800.id-0" = Next "id-0"
  ∧ @AuthMiddleware ClockedAuth.lib "k" 604800 "Bearer k.604800.id-0"
    = Answered (Handlers.errorBody "Invalid or expired token") 401.
Proof.
  split; [vm_compute; reflexivity|]. split; [|vm_compute; reflexivity].
  apply (@issued_token_is_accepted ClockedAuth.lib "k" 0 604799 "id-0" "k.604800.id-0").
  - intros tok t Hsign Ht.
    assert (tok = "k.604800.id-0") as ->
      by (vm_compute in Hsign; injection Hsign as <-; reflexivity).
    change (@jwtParse ClockedAuth.lib) with ClockedAuth.parse.
    rewrite clocked_parse_until_expiry.
    assert ((t <? 604800) = true) as -> by (apply Z.ltb_lt; lia).
    eexists. split; [reflexivity|]. vm_compute. reflexivity.
  - vm_compute. reflexivity.
  - lia.
Defined.

Lemma Register_keeps_emails_unique_witness :
  uniqueEmails
    (Register "k" 0 "salt"
       (Some {| reg_Email := "bob@example.com"; reg_Password := "hunter22";
                reg_Name := "Bob" |}) false false ToyAuth.accounts).1.
Proof.
  apply Register_keeps_emails_unique. unfold uniqueEmails. simpl.
  apply NoDup_singleton.
Defined.

Lemma Login_after_Register_witness :
  Login "k" 50
    (Some {| login_Email := "bob@example.com"; login_Password := "hunter22" |}) false
    (Register "k" 0 "salt"
       (Some {| reg_Email := "bob@example.com"; reg_Password := "hunter22";
                reg_Name := "Bob" |}) false false ToyAuth.accounts).1
  = Granted 200 "k.id-1"
      {| json_id := "id-1"; json_email := "bob@example.com"; json_name := "Bob";
         json_created_at := 1; json_updated_at := 1 |}.
Proof.
  pose proof (Login_after_Register "k" 0 "salt"
                {| reg_Email := "bob@example.com"; reg_Password := "hunter22";
                   reg_Name := "Bob" |} false false ToyAuth.accounts
                (Register "k" 0 "salt"
                   (Some {| reg_Email := "bob@example.com"; reg_Password := "hunter22";
                            reg_Name := "Bob" |}) false false ToyAuth.accounts).1
                "k.id-1"
                {| json_id := "id-1"; json_email := "bob@example.com"; json_name := "Bob";
                   json_created_at := 1; json_updated_at := 1 |} 50
                toy_matches_what_it_generates eq_refl) as H.
  exact H.
Defined.

Lemma Login_hides_which_part_failed_witness :
  Login "k" 0
    (Some {| login_Email := "alice@example.com"; login_Password := "guess" |}) false
    ToyAuth.accounts
  = Login "k" 0
      (Some {| login_Email := "carol@example.com"; login_Password := "guess" |}) false
      ToyAuth.accounts.
Proof.
  refine (proj2 (Login_hides_which_part_failed "k" 0 "carol@example.com"
                   "alice@example.com" "guess" "guess" _ ToyAuth.accounts _ _ _ _ _ _ _));
    try discriminate; reflexivity.
Defined.

End AuthSpec.

(** * Further properties of the chat handlers *)

Module HandlersMore.
Import Models Handlers Reading HandlersSpec.
Local Open Scope list_scope.

(** ** The order of the history *)

Lemma insertByCreatedAt_perm m l : Permutation (insertByCreatedAt m l) (m :: l).
Proof.
  induction l as [|x l IH]; simpl; [done|].
  destruct (msg_CreatedAt m <? msg_CreatedAt x); [done|].
  rewrite IH. apply perm_swap.
Qed.

Lemma orderByCreatedAt_fold l : ∀ sorted,
  Permutation (fold_left (fun sorted m => insertByCreatedAt m sorted) l sorted)
    (sorted ++ l).
Proof.
  induction l as [|m l IH]; intros sorted; simpl; [by rewrite app_nil_r|].
  rewrite IH, insertByCreatedAt_perm. simpl. apply Permutation_middle.
Qed.

Lemma orderByCreatedAt_perm l : Permutation (orderByCreatedAt l) l.
Proof. unfold orderByCreatedAt. by rewrite orderByCreatedAt_fold. Qed.

Lemma insertByCreatedAt_sorted m l :
  Sorted earlier l → Sorted earlier (insertByCreatedAt m l).
Proof.
  induction l as [|x l IH]; intros Hs; simpl; [by repeat constructor|].
  destruct (msg_CreatedAt m <? msg_CreatedAt x) eqn:Hlt.
  - apply Z.ltb_lt in Hlt. constructor; [done|]. constructor. unfold earlier. lia.
  - apply Z.ltb_ge in Hlt. apply Sorted_inv in Hs as [Hs Hhd].
    constructor; [by apply IH|].
    destruct l as [|y l]; simpl; [by constructor|].
    destruct (msg_CreatedAt m <? msg_CreatedAt y); constructor; [done|].
    by apply HdRel_inv in Hhd.
Qed.

Lemma orderByCreatedAt_sorted l : Sorted earlier (orderByCreatedAt l).
Proof.
  unfold orderByCreatedAt.
  assert (∀ sorted, Sorted earlier sorted →
            Sorted earlier (fold_left (fun sorted m => insertByCreatedAt m sorted) l sorted))
    as H; [|apply H; constructor].
  induction l as [|m l IH]; intros sorted Hs; simpl; [done|].
  by apply IH, insertByCreatedAt_sorted.
Qed.

Lemma insertByCreatedAt_last m l :
  Forall (fun x => msg_CreatedAt x <= msg_CreatedAt m) l →
  insertByCreatedAt m l = l ++ [m].
Proof.
  induction 1 as [|x l Hx _ IH]; simpl; [done|].
  assert ((msg_CreatedAt m <? msg_CreatedAt x) = false) as -> by (apply Z.ltb_ge; lia).
  by rewrite IH.
Qed.

Lemma orderByCreatedAt_snoc l m :
  Forall (fun x => msg_CreatedAt x <= msg_CreatedAt m) l →
  orderByCreatedAt (l ++ [m]) = orderByCreatedAt l ++ [m].
Proof.
  intros Hall. unfold orderByCreatedAt. rewrite fold_left_app. simpl.
  apply insertByCreatedAt_last. fold (orderByCreatedAt l).
  rewrite List.Forall_forall in *. intros x Hx. apply Hall.
  by apply (Permutation_in _ (orderByCreatedAt_perm l)).
Qed.

(** ** What the statements keep *)

Lemma keeps_refl db : keeps db db.
Proof. split; [done|]. intros c Hc. by exists c. Qed.

Lemma keeps_trans db1 db2 db3 : keeps db1 db2 → keeps db2 db3 → keeps db1 db3.
Proof.
  intros [Hu1 Hc1] [Hu2 Hc2]. split; [congruence|]. intros c Hc.
  destruct (Hc1 c Hc) as (c' & Hin' & ? & ? & ? & ?).
  destruct (Hc2 c' Hin') as (c'' & Hin'' & ? & ? & ? & ?).
  exists c''. repeat split; congruence.
Qed.

Lemma insertConversation_keeps fail userID title db id db' :
  insertConversation fail userID title db = Some (id, db') →
  keeps db db' ∧ messages db' = messages db.
Proof.
  unfold insertConversation. destruct fail; [done|]. case_bool_decide; [|done].
  intros [= _ <-]. split; [|done]. split; [done|]. intros c Hc. exists c.
  split; [|done]. simpl. apply in_or_app. by left.
Qed.

Lemma insertMessage_keeps fail conv role content db db' :
  insertMessage fail conv role content db = Some db' → keeps db db'.
Proof.
  intros H. apply insertMessage_Some in H as (_ & _ & Hu & Hc & _).
  split; [done|]. intros c Hin. exists c. by rewrite Hc.
Qed.

Lemma touchConversation_keeps_all fail conv db : keeps db (touchConversation fail conv db).
Proof.
  unfold touchConversation. destruct fail; [apply keeps_refl|].
  split; [done|]. intros c Hc. simpl.
  eexists. split; [apply in_map; exact Hc|].
  cbn beta. by destruct (String.eqb (conv_ID c) conv).
Qed.

(** ** The stream reader as a pipeline *)

Section Relay.
Context `{lib : GoLib}.

Lemma scanLines_texts lines : ∀ fullResponse w,
  scanLines lines fullResponse w =
    ((fullResponse ++ concatText (omap lineText (untilDone lines)))%string,
     w ++ map contentFrame (omap lineText (untilDone lines))).
Proof.
  induction lines as [|line lines IH]; intros acc w.
  - simpl. by rewrite append_empty_r, app_nil_r.
  - cbn [scanLines untilDone]. unfold isDone.
    assert (lineText line =
              if HasPrefix (TrimSpace line) "data: " then
                match jsonUnmarshal (TrimPrefix (TrimSpace line) "data: ") with
                | Some streamResp => deltaText streamResp
                | None => None
                end
              else None) as Hline by done.
    destruct (HasPrefix (TrimSpace line) "data: "); cbn [negb andb].
    + destruct (String.eqb _ "[DONE]").
      { simpl. by rewrite append_empty_r, app_nil_r. }
      cbn [omap list_omap]. rewrite Hline.
      destruct (jsonUnmarshal _) as [streamResp|]; [|apply IH].
      destruct (deltaText streamResp) as [text|]; [|apply IH].
      rewrite IH. unfold concatText. simpl. by rewrite append_assoc, <- app_assoc.
    + cbn [omap list_omap]. rewrite Hline. apply IH.
Qed.

Lemma chunk_texts chunk fullResponse w :
  (if (0 <? String.length chunk)%nat then scanLines (Split chunk) fullResponse w
   else (fullResponse, w))
  = ((fullResponse ++ concatText (chunkTexts chunk))%string,
     w ++ map contentFrame (chunkTexts chunk)).
Proof.
  unfold chunkTexts. destruct (0 <? String.length chunk)%nat; [apply scanLines_texts|].
  simpl. by rewrite append_empty_r, app_nil_r.
Qed.

Lemma readLoop_texts body : ∀ fullResponse w,
  readLoop body fullResponse w =
    ((fullResponse ++ concatText (bodyTexts body))%string, bodyError body,
     w ++ map contentFrame (bodyTexts body)).
Proof.
  induction body as [|[chunk err] body IH]; intros acc w.
  - simpl. by rewrite append_empty_r, app_nil_r.
  - cbn [readLoop bodyTexts bodyError]. rewrite chunk_texts.
    destruct err as [[|msg]|]; [done..|].
    rewrite IH. by rewrite concatText_app, append_assoc, map_app, <- app_assoc.
Qed.

(** X11.  On a 200 reply [streamClaudeResponse] accumulates and forwards,
    read by read and up to the first read that returns an error, the delta
    texts of the [data: ] lines that come before the first sentinel line of
    their read; it returns an error exactly when that read's error is not
    [io.EOF]. *)
Theorem streamClaudeResponse_reads_chunk_by_chunk w body :
  streamClaudeResponse w (Reply 200 body) =
    (concatText (bodyTexts body), bodyError body,
     w ++ map contentFrame (bodyTexts body)).
Proof. unfold streamClaudeResponse. simpl. by rewrite readLoop_texts. Qed.

(** ** The relay, case by case *)

Lemma SendMessage_relay userID M cid upstream faults db conv db1 db2 history :
  userID ≠ EmptyString → M ≠ EmptyString →
  (if String.eqb cid EmptyString
   then createConversation (failCreate faults) userID M db
   else Some (cid, db)) = Some (conv, db1) →
  insertMessage (failSaveUser faults) conv "user" M db1 = Some db2 →
  getConversationMessages (failHistory faults) conv db2 = Some history →
  SendMessage userID (Some {| req_Message := M; req_ConversationID := cid |})
    upstream faults db
  = let '(assistantResponse, err, w1) :=
      streamClaudeResponse [startFrame conv] (upstream (claudeRequest history)) in
    match err with
    | Some msg => (db2, EventStream (w1 ++ [errorFrame msg conv]))
    | None =>
        match insertMessage (failSaveAssistant faults) conv "assistant"
                assistantResponse db2 with
        | None => (db2, EventStream (w1 ++ [errorFrame "Error saving response" conv]))
        | Some db3 =>
            (touchConversation (failTouch faults) conv db3,
             EventStream (w1 ++ [endFrame conv]))
        end
    end.
Proof.
  intros HU HM Hcreated Huser Hhist. unfold SendMessage.
  cbn [req_Message req_ConversationID].
  destruct (String.eqb_spec userID EmptyString); [done|].
  destruct (String.eqb_spec M EmptyString); [done|].
  rewrite Hcreated, Huser, Hhist. reflexivity.
Qed.

Lemma relay_messages userID M cid upstream faults db db' frames :
  SendMessage userID (Some {| req_Message := M; req_ConversationID := cid |})
    upstream faults db = (db', EventStream frames) →
  ∃ conv texts last u rest,
    conv ≠ EmptyString ∧
    frames = startFrame conv :: map contentFrame texts ++ [last] ∧
    messages db' = messages db ++ u :: rest ∧
    msg_Role u = "user" ∧ msg_Content u = M ∧ msg_ConversationID u = conv ∧
    (cid ≠ EmptyString → conv = cid) ∧
    existsb (fun c => String.eqb (conv_ID c) conv) (conversations db') = true ∧
    ((∃ msg, last = errorFrame msg conv ∧ rest = [])
     ∨ (last = endFrame conv ∧
        ∃ a, rest = [a] ∧ msg_Role a = "assistant" ∧ msg_ConversationID a = conv ∧
             msg_Content a = concatText texts)).
Proof.
  intros Hsend.
  destruct (SendMessage_stream _ _ _ _ _ _ _ _ Hsend)
    as (conv & db1 & db2 & history & texts & _ & _ & Hconv & Hcid & Huser & _ & Hout).
  apply insertMessage_Some in Huser
    as (_ & Hexists & _ & Hconvs & u & Hmsgs & Hu1 & Hu2 & Hu3).
  assert (messages db1 = messages db ∧ (cid ≠ EmptyString → conv = cid)) as [Hdb1 Hsame].
  { destruct Hcid as [[-> Hc]|(_ & -> & ->)]; [|done].
    by apply createConversation_Some in Hc as (_ & -> & _). }
  rewrite Hdb1 in Hmsgs. rewrite <- Hconvs in Hexists.
  destruct Hout as [(msg & _ & -> & ->)|[(_ & _ & -> & ->)|(_ & db3 & Ha & -> & ->)]].
  - exists conv, texts, (errorFrame msg conv), u, []. repeat (split; [done|]).
    left. by exists msg.
  - exists conv, texts, (errorFrame "Error saving response" conv), u, [].
    repeat (split; [done|]). left. by eexists.
  - apply insertMessage_Some in Ha as (_ & _ & _ & Hconvs3 & a & Hmsgs3 & Ha1 & Ha2 & Ha3).
    exists conv, texts, (endFrame conv), u, [a].
    rewrite touchConversation_messages, Hmsgs3, Hmsgs, <- app_assoc.
    repeat (split; [done|]). split.
    + unfold touchConversation. destruct (failTouch faults); [by rewrite Hconvs3|].
      cbn [conversations]. rewrite Hconvs3.
      apply existsb_exists in Hexists as (c & Hin & Hc).
      apply existsb_exists. eexists. split; [apply in_map; exact Hin|].
      cbn beta. destruct (String.eqb (conv_ID c) conv) eqn:E; simpl; congruence.
    + right. split; [done|]. by exists a.
Qed.

Lemma endFrame_not_errorFrame conv msg conv' : endFrame conv ≠ errorFrame msg conv'.
Proof.
  intros Heq. apply (f_equal (field "type")) in Heq. unfold endFrame, errorFrame in Heq.
  destruct (fields_of_event "end" EmptyString conv) as [He _].
  destruct (fields_of_event "error" msg conv') as [Hr _]. congruence.
Qed.

(** X12.  The frames of a relay call come in the order start, content
    frames, then one terminal frame, which is [end] or [error]; the start
    and terminal frames name the same conversation. *)
Theorem frames_start_content_terminal userID M cid upstream faults db db' frames :
  SendMessage userID (Some {| req_Message := M; req_ConversationID := cid |})
    upstream faults db = (db', EventStream frames) →
  ∃ conv texts last,
    frames = startFrame conv :: map contentFrame texts ++ [last] ∧
    (last = endFrame conv ∨ ∃ msg, last = errorFrame msg conv).
Proof.
  intros Hsend.
  destruct (relay_messages _ _ _ _ _ _ _ _ Hsend)
    as (conv & texts & last & u & rest & _ & -> & _ & _ & _ & _ & _ & _ & Hlast).
  exists conv, texts, last. split; [done|].
  destruct Hlast as [(msg & -> & _)|[-> _]]; eauto.
Qed.


Lemma relay_states userID M cid upstream faults db db' frames :
  SendMessage userID (Some {| req_Message := M; req_ConversationID := cid |})
    upstream faults db = (db', EventStream frames) →
  ∃ conv db1 db2 history,
    userID ≠ EmptyString ∧ M ≠ EmptyString ∧
    (if String.eqb cid EmptyString
     then createConversation (failCreate faults) userID M db
     else Some (cid, db)) = Some (conv, db1) ∧
    insertMessage (failSaveUser faults) conv "user" M db1 = Some db2 ∧
    getConversationMessages (failHistory faults) conv db2 = Some history ∧
    messages db1 = messages db ∧ clock db <= clock db1 ∧
    (cid ≠ EmptyString → conv = cid ∧ db1 = db).
Proof.
  intros Hsend.
  destruct (SendMessage_stream _ _ _ _ _ _ _ _ Hsend)
    as (conv & db1 & db2 & history & texts & HU & HM & _ & Hcid & Huser & Hhist & _).
  exists conv, db1, db2, history. repeat (split; [done|]).
  destruct Hcid as [[-> Hc]|(Hne & -> & ->)].
  - rewrite String.eqb_refl. do 3 (split; [done|]).
    revert Hc. unfold createConversation, insertConversation.
    destruct (failCreate faults); [done|]. case_bool_decide; [|done].
    intros [= _ <-]. simpl. split; [done|]. split; [lia|done].
  - destruct (String.eqb_spec cid EmptyString); [done|].
    do 4 (split; [done|]). split; [lia|done].
Qed.

(** X14.  When the upstream answers with a status other than 200, the
    client receives exactly the start frame and an error frame whose text is
    [Claude API error: ] followed by the reply's body, and only the user
    message is written. *)
Theorem upstream_status_error userID M cid upstream faults db db' frames status body :
  (∀ req, upstream req = Reply status body) → status ≠ 200 →
  SendMessage userID (Some {| req_Message := M; req_ConversationID := cid |})
    upstream faults db = (db', EventStream frames) →
  ∃ conv u,
    frames = [startFrame conv;
              errorFrame ("Claude API error: " ++ ReadAll body)%string conv] ∧
    messages db' = messages db ++ [u] ∧ msg_Role u = "user" ∧ msg_Content u = M.
Proof.
  intros Hup Hstatus Hsend.
  destruct (relay_states _ _ _ _ _ _ _ _ Hsend)
    as (conv & db1 & db2 & history & HU & HM & Hc & Huser & Hhist & Hdb1 & _).
  rewrite (SendMessage_relay _ _ _ _ _ _ _ _ _ _ HU HM Hc Huser Hhist) in Hsend.
  rewrite Hup in Hsend. unfold streamClaudeResponse in Hsend.
  assert ((status =? 200) = false) as Hne by (by apply Z.eqb_neq).
  rewrite Hne in Hsend. cbn [negb] in Hsend. injection Hsend as <- <-.
  apply insertMessage_Some in Huser as (_ & _ & _ & _ & u & Hmsgs & Hu1 & Hu2 & Hu3).
  rewrite Hdb1 in Hmsgs. by exists conv, u.
Qed.

(** X15.  When the upstream reply completes without a single delta, an
    assistant message with empty content is still written and the client
    receives the start frame followed by the end frame. *)
Theorem empty_reply_is_persisted userID M cid upstream faults db db' frames body :
  (∀ req, upstream req = Reply 200 body) →
  bodyTexts body = [] → bodyError body = None →
  failSaveAssistant faults = false →
  SendMessage userID (Some {| req_Message := M; req_ConversationID := cid |})
    upstream faults db = (db', EventStream frames) →
  ∃ conv u a,
    frames = [startFrame conv; endFrame conv] ∧
    messages db' = messages db ++ [u; a] ∧
    msg_Role u = "user" ∧ msg_Content u = M ∧
    msg_Role a = "assistant" ∧ msg_Content a = EmptyString ∧
    msg_ConversationID a = conv.
Proof.
  intros Hup Htexts Herr Hfault Hsend.
  destruct (relay_states _ _ _ _ _ _ _ _ Hsend)
    as (conv & db1 & db2 & history & HU & HM & Hc & Huser & Hhist & Hdb1 & _).
  rewrite (SendMessage_relay _ _ _ _ _ _ _ _ _ _ HU HM Hc Huser Hhist) in Hsend.
  rewrite Hup in Hsend. unfold streamClaudeResponse in Hsend.
  change (negb (200 =? 200)) with false in Hsend. cbv iota in Hsend.
  rewrite readLoop_texts, Htexts, Herr in Hsend.
  change (EmptyString ++ concatText [])%string with EmptyString in Hsend.
  cbn [map app] in Hsend.
  apply insertMessage_Some in Huser
    as (_ & Hexists & _ & Hconvs & u & Hmsgs & Hu1 & Hu2 & Hu3).
  rewrite Hdb1 in Hmsgs.
  destruct (insertMessage _ conv "assistant" _ db2) as [db3|] eqn:Ha.
  - injection Hsend as <- <-.
    apply insertMessage_Some in Ha as (_ & _ & _ & _ & a & Hmsgs3 & Ha1 & Ha2 & Ha3).
    exists conv, u, a.
    rewrite touchConversation_messages, Hmsgs3, Hmsgs, <- app_assoc.
    by repeat (split; [done|]).
  - exfalso. revert Ha. unfold insertMessage. by rewrite Hfault, Hconvs, Hexists.
Qed.

Lemma SendMessage_extends userID body upstream faults db :
  extends db (SendMessage userID body upstream faults db).1.
Proof.
  assert (∀ db', keeps db db' → messages db' = messages db → extends db db') as Hsame.
  { intros db' Hk Hm. split; [done|]. exists []. rewrite app_nil_r.
    split; [done|simpl; lia]. }
  unfold SendMessage.
  destruct (String.eqb userID EmptyString); [apply Hsame; [apply keeps_refl|done]|].
  destruct body as [req|]; [|apply Hsame; [apply keeps_refl|done]].
  destruct (String.eqb (req_Message req) EmptyString);
    [apply Hsame; [apply keeps_refl|done]|].
  destruct (if String.eqb (req_ConversationID req) EmptyString then _ else _)
    as [[conv db1]|] eqn:Hcreated; [|apply Hsame; [apply keeps_refl|done]].
  assert (keeps db db1 ∧ messages db1 = messages db) as [Hk1 Hm1].
  { destruct (String.eqb (req_ConversationID req) EmptyString).
    - by apply insertConversation_keeps in Hcreated.
    - injection Hcreated as _ <-. split; [apply keeps_refl|done]. }
  destruct (insertMessage _ conv "user" _ db1) as [db2|] eqn:Huser; [|by apply Hsame].
  pose proof (insertMessage_keeps _ _ _ _ _ _ Huser) as Hk2.
  apply insertMessage_Some in Huser as (_ & _ & _ & _ & u & Hm2 & _).
  assert (extends db db2) as Hone.
  { split; [by eapply keeps_trans|]. exists [u]. rewrite Hm2, Hm1.
    split; [done|simpl; lia]. }
  destruct (getConversationMessages _ conv db2); [|done].
  destruct (streamClaudeResponse _ _) as [[full err] w1]. destruct err; [done|].
  destruct (insertMessage _ conv "assistant" _ db2) as [db3|] eqn:Ha; [|done].
  pose proof (insertMessage_keeps _ _ _ _ _ _ Ha) as Hk3.
  apply insertMessage_Some in Ha as (_ & _ & _ & _ & a & Hm3 & _).
  cbn [fst]. split.
  - eapply keeps_trans; [|apply touchConversation_keeps_all].
    eapply keeps_trans; [|exact Hk3]. by eapply keeps_trans.
  - exists [u; a]. rewrite touchConversation_messages, Hm3, Hm2, Hm1, <- app_assoc.
    split; [done|]. simpl. lia.
Qed.

(** X16.  Whatever the outcome of a [SendMessage] call, the store keeps
    its users, every conversation keeps its id, owner, title and creation
    time, and the messages table is the old one followed by at most two new
    rows: no row is changed or removed. *)
Theorem SendMessage_only_appends userID body upstream faults db :
  extends db (SendMessage userID body upstream faults db).1.
Proof. apply SendMessage_extends. Qed.

Lemma GetHistory_contains owner cid db c u :
  owner ≠ EmptyString → cid ≠ EmptyString →
  In c (conversations db) → conv_ID c = cid → conv_UserID c = owner →
  In u (messages db) → msg_ConversationID u = cid →
  ∃ rows, GetHistory owner cid noFaults db = JsonMessages rows ∧ In u rows.
Proof.
  intros HO Hcid Hin Hid Hown Hu Hconv.
  unfold GetHistory, existsConversation, getConversationMessages, selectMessages.
  destruct (String.eqb_spec owner EmptyString); [done|].
  destruct (String.eqb_spec cid EmptyString); [done|]. simpl.
  assert (existsb (fun c => String.eqb (conv_ID c) cid && String.eqb (conv_UserID c) owner)
            (conversations db) = true) as ->.
  { apply existsb_exists. exists c. split; [done|].
    apply andb_true_iff. split; by apply String.eqb_eq. }
  eexists. split; [reflexivity|].
  apply (Permutation_in _ (Permutation_sym (orderByCreatedAt_perm _))).
  apply filter_In. split; [done|]. by apply String.eqb_eq.
Qed.

Lemma SendMessage_opens userID M cid upstream faults db :
  userID ≠ EmptyString → M ≠ EmptyString → cid ≠ EmptyString →
  existsb (fun c => String.eqb (conv_ID c) cid) (conversations db) = true →
  failSaveUser faults = false → failHistory faults = false →
  ∃ db' frames,
    SendMessage userID (Some {| req_Message := M; req_ConversationID := cid |})
      upstream faults db = (db', EventStream frames).
Proof.
  intros HU HM Hcid Hex Hfu Hfh.
  assert ((if String.eqb cid EmptyString
           then createConversation (failCreate faults) userID M db
           else Some (cid, db)) = Some (cid, db)) as Hcreated
    by (by destruct (String.eqb_spec cid EmptyString)).
  destruct (insertMessage (failSaveUser faults) cid "user" M db) as [db2|] eqn:Huser.
  2: { exfalso. revert Huser. unfold insertMessage. by rewrite Hfu, Hex. }
  assert (∃ history, getConversationMessages (failHistory faults) cid db2 = Some history)
    as [history Hhist].
  { unfold getConversationMessages, selectMessages. rewrite Hfh. by eexists. }
  rewrite (SendMessage_relay _ _ _ upstream _ _ _ _ _ _ HU HM Hcreated Huser Hhist).
  destruct (streamClaudeResponse _ _) as [[full err] w1].
  destruct err; [by eexists _, _|].
  destruct (insertMessage _ cid "assistant" _ db2); by eexists _, _.
Qed.

(** X17.  [SendMessage] does not look at the owner of the conversation it
    is given: a message that any subject sends to an existing conversation
    is added to it, and the conversation's owner then finds it in the
    history [GetHistory] returns. *)
Theorem message_to_foreign_conversation userID owner M c upstream faults db :
  userID ≠ EmptyString → owner ≠ EmptyString → M ≠ EmptyString →
  conv_ID c ≠ EmptyString →
  In c (conversations db) → conv_UserID c = owner →
  failSaveUser faults = false → failHistory faults = false →
  ∃ db' frames rows row,
    SendMessage userID (Some {| req_Message := M; req_ConversationID := conv_ID c |})
      upstream faults db = (db', EventStream frames) ∧
    GetHistory owner (conv_ID c) noFaults db' = JsonMessages rows ∧
    In row rows ∧ msg_Role row = "user" ∧ msg_Content row = M.
Proof.
  intros HU HO HM Hcid Hin Hown Hfu Hfh.
  destruct (SendMessage_opens userID M (conv_ID c) upstream faults db)
    as (db' & frames & Hsend); try done.
  { apply existsb_exists. exists c. split; [done|]. apply String.eqb_refl. }
  destruct (relay_messages _ _ _ _ _ _ _ _ Hsend)
    as (conv & texts & last & u & rest & _ & _ & Hmsgs & Hu1 & Hu2 & Hu3 & Hsame & _).
  pose proof (SendMessage_extends userID
                (Some {| req_Message := M; req_ConversationID := conv_ID c |})
                upstream faults db) as [[_ Hkeep] _].
  rewrite Hsend in Hkeep. destruct (Hkeep c Hin) as (c' & Hin' & Hid' & Hown' & _).
  destruct (GetHistory_contains owner (conv_ID c) db' c' u) as (rows & Hget & Hrow);
    try done; try congruence.
  - rewrite Hmsgs. apply in_or_app. right. by left.
  - rewrite Hu3. by apply Hsame.
  - by exists db', frames, rows, u.
Qed.

(** X18.  A conversation id that no conversation has makes [SendMessage]
    answer 500 [Error saving message], and a subject that is not in the
    users table cannot start a conversation (500 [Error creating
    conversation]); in both cases the store is left as it was. *)
Theorem SendMessage_unknown_keys userID M cid upstream faults db :
  userID ≠ EmptyString → M ≠ EmptyString →
  (cid ≠ EmptyString → (∀ c, In c (conversations db) → conv_ID c ≠ cid) →
   SendMessage userID (Some {| req_Message := M; req_ConversationID := cid |})
     upstream faults db
   = (db, HttpError (errorBody "Error saving message") 500))
  ∧ (¬ In userID (users db) →
     SendMessage userID (Some {| req_Message := M; req_ConversationID := EmptyString |})
       upstream faults db
     = (db, HttpError (errorBody "Error creating conversation") 500)).
Proof.
  intros HU HM. unfold SendMessage. cbn [req_Message req_ConversationID].
  destruct (String.eqb_spec userID EmptyString); [done|].
  destruct (String.eqb_spec M EmptyString); [done|]. split.
  - intros Hcid Hnone. destruct (String.eqb_spec cid EmptyString); [done|].
    unfold insertMessage. destruct (failSaveUser faults); [done|].
    destruct (existsb _ _) eqn:Hex; [|done].
    apply existsb_exists in Hex as (c & Hin & Hc). apply String.eqb_eq in Hc.
    by destruct (Hnone c Hin).
  - intros Hnot. rewrite String.eqb_refl.
    unfold createConversation, insertConversation.
    destruct (failCreate faults); [done|]. case_bool_decide as Hin; [|done].
    destruct Hnot. by apply list_elem_of_In.
Qed.

(** ** The history after a relay *)

Lemma insertMessage_row fail conv role content db db' :
  insertMessage fail conv role content db = Some db' →
  messages db' = messages db ++
    [{| msg_ID := uuid (serial db); msg_ConversationID := conv; msg_Role := role;
        msg_Content := content; msg_CreatedAt := clock db |}]
  ∧ clock db' = clock db + 1.
Proof.
  unfold insertMessage. destruct fail; [done|]. destruct (existsb _ _); [|done].
  by intros [= <-].
Qed.

Lemma history_snoc conv msgs m :
  msg_ConversationID m = conv →
  Forall (fun x => msg_CreatedAt x <= msg_CreatedAt m) msgs →
  orderByCreatedAt
    (List.filter (fun x => String.eqb (msg_ConversationID x) conv) (msgs ++ [m]))
  = orderByCreatedAt
      (List.filter (fun x => String.eqb (msg_ConversationID x) conv) msgs) ++ [m].
Proof.
  intros Hconv Hall. rewrite List.filter_app. simpl.
  rewrite (proj2 (String.eqb_eq _ _) Hconv).
  apply orderByCreatedAt_snoc. rewrite List.Forall_forall in *.
  intros x Hx. apply Hall. by apply filter_In in Hx as [Hx _].
Qed.

Lemma stamped_history userID M cid upstream faults db db' frames :
  stamped db →
  SendMessage userID (Some {| req_Message := M; req_ConversationID := cid |})
    upstream faults db = (db', EventStream frames) →
  ∃ conv db1 db2 prev u,
    userID ≠ EmptyString ∧ M ≠ EmptyString ∧
    (if String.eqb cid EmptyString
     then createConversation (failCreate faults) userID M db
     else Some (cid, db)) = Some (conv, db1) ∧
    insertMessage (failSaveUser faults) conv "user" M db1 = Some db2 ∧
    getConversationMessages false conv db = Some prev ∧
    getConversationMessages (failHistory faults) conv db2 = Some (prev ++ [u]) ∧
    msg_Role u = "user" ∧ msg_Content u = M ∧ msg_ConversationID u = conv ∧
    messages db2 = messages db ++ [u] ∧
    Forall (fun x => msg_CreatedAt x <= clock db2) (messages db2).
Proof.
  intros Hst Hsend.
  destruct (relay_states _ _ _ _ _ _ _ _ Hsend)
    as (conv & db1 & db2 & history & HU & HM & Hc & Huser & Hhist & Hdb1 & Hclock & _).
  destruct (insertMessage_row _ _ _ _ _ _ Huser) as [Hmsgs Hclock2].
  rewrite Hdb1 in Hmsgs.
  assert (Forall (fun x => msg_CreatedAt x <= clock db1) (messages db)) as Hold.
  { apply List.Forall_forall. intros x Hx. specialize (Hst x Hx). lia. }
  exists conv, db1, db2. eexists. eexists.
  repeat (split; [done|]). split.
  - revert Hhist. unfold getConversationMessages, selectMessages.
    destruct (failHistory faults); [done|]. intros _. rewrite Hmsgs.
    by rewrite history_snoc.
  - repeat (split; [done|]). rewrite Hmsgs, Hclock2. apply Forall_app. split.
    + eapply List.Forall_impl; [|exact Hold]. simpl. intros; lia.
    + constructor; [simpl; lia|constructor].
Qed.

(** X19.  When no stored message is stamped later than the clock, the
    history of the conversation after a relay call that ended with the end
    frame is its history before the call, followed by the inbound message
    and the assistant's reply, in that order. *)
Theorem history_grows_by_the_exchange userID M cid upstream faults db db' frames :
  stamped db →
  SendMessage userID (Some {| req_Message := M; req_ConversationID := cid |})
    upstream faults db = (db', EventStream frames) →
  field "type" (List.last frames []) = Some "end" →
  ∃ conv prev u a,
    field "conversationId" (hd [] frames) = Some conv ∧
    getConversationMessages false conv db = Some prev ∧
    getConversationMessages false conv db' = Some (prev ++ [u; a]) ∧
    msg_Role u = "user" ∧ msg_Content u = M ∧
    msg_Role a = "assistant" ∧ msg_Content a = forwardedText frames.
Proof.
  intros Hst Hsend Hend.
  destruct (stamped_history _ _ _ _ _ _ _ _ Hst Hsend)
    as (conv & db1 & db2 & prev & u & HU & HM & Hc & Huser & Hprev & Hhist
        & Hu1 & Hu2 & Hu3 & Hmsgs & Hclock).
  rewrite (SendMessage_relay _ _ _ _ _ _ _ _ _ _ HU HM Hc Huser Hhist) in Hsend.
  destruct (streamClaudeResponse_forwards (upstream (claudeRequest (prev ++ [u]))))
    as [texts Hfw].
  destruct (Hfw [startFrame conv]) as (Hw & Herr & Hfull).
  destruct (streamClaudeResponse _ _) as [[full err] w1]. cbn [fst snd] in *. subst w1.
  assert (∀ x, List.last (startFrame conv :: map contentFrame texts ++ [x]) [] = x)
    as Hlast by (intros x; apply (last_last (startFrame conv :: map contentFrame texts))).
  assert (∀ msg, field "type" (errorFrame msg conv) ≠ Some "end") as Herror.
  { intros msg. unfold errorFrame.
    by destruct (fields_of_event "error" msg conv) as [-> _]. }
  destruct err as [msg|].
  { injection Hsend as _ <-. rewrite Hlast in Hend. by apply Herror in Hend. }
  destruct (insertMessage _ conv "assistant" full db2) as [db3|] eqn:Ha.
  2: { injection Hsend as _ <-. rewrite Hlast in Hend. by apply Herror in Hend. }
  injection Hsend as <- <-.
  destruct (insertMessage_row _ _ _ _ _ _ Ha) as [Hmsgs3 _].
  exists conv, prev, u. eexists. split.
  { cbn [app hd]. unfold startFrame.
    destruct (fields_of_event "start" EmptyString conv) as [_ ->].
    destruct (String.eqb_spec conv EmptyString) as [->|]; [|done].
    revert Hc. destruct (String.eqb_spec cid EmptyString) as [->|]; [|congruence].
    intros Hc. apply createConversation_Some in Hc as [Hid _].
    by destruct (uuid_nonempty (serial db)). }
  split; [done|]. split.
  { unfold getConversationMessages, selectMessages.
    rewrite touchConversation_messages, Hmsgs3.
    rewrite history_snoc; [|done|exact Hclock].
    revert Hhist. unfold getConversationMessages, selectMessages.
    destruct (failHistory faults); [done|]. intros [= ->].
    by rewrite <- app_assoc. }
  repeat (split; [done|]). cbn [msg_Content]. rewrite (Hfull (eq_sym Herr)). symmetry.
  cbn [app]. apply forwardedText_stream; by apply contentText_other.
Qed.



End Relay.

(** ** History retrieval *)

Lemma earlier_transitive : Transitive earlier.
Proof. intros a b c. unfold earlier. lia. Qed.

(** X21.  The rows [GetHistory] returns are exactly the stored messages of
    the requested conversation, each once, in order of creation time. *)
Theorem GetHistory_returns_the_conversation_in_order userID cid faults db rows :
  GetHistory userID cid faults db = JsonMessages rows →
  Permutation rows
    (List.filter (fun m => String.eqb (msg_ConversationID m) cid) (messages db))
  ∧ StronglySorted earlier rows.
Proof.
  unfold GetHistory, getConversationMessages, selectMessages.
  destruct (String.eqb userID EmptyString); [done|].
  destruct (String.eqb cid EmptyString); [done|].
  destruct (existsConversation _ _ _ _) as [[|]|]; try done.
  destruct (failHistory faults); [done|]. intros [= <-]. split.
  - apply orderByCreatedAt_perm.
  - apply Sorted_StronglySorted; [apply earlier_transitive|apply orderByCreatedAt_sorted].
Qed.

(** ** The handlers on concrete input *)

Import Inputs Scenes.

Lemma frames_start_content_terminal_witness :
  ∃ conv texts last,
    framesOf (hello (answers twoDeltas)).2
      = startFrame conv :: map contentFrame texts ++ [last] ∧
    (last = endFrame conv ∨ ∃ msg, last = errorFrame msg conv).
Proof.
  apply (frames_start_content_terminal "alice" "Hello" EmptyString (answers twoDeltas)
           noFaults store (hello (answers twoDeltas)).1).
  vm_compute. reflexivity.
Defined.


Lemma upstream_status_error_witness :
  ∃ conv u,
    framesOf (hello (fun _ => Reply 500 [("overloaded", None)])).2
      = [startFrame conv;
         errorFrame ("Claude API error: " ++ ReadAll [("overloaded", None)])%string conv] ∧
    messages (hello (fun _ => Reply 500 [("overloaded", None)])).1 = messages store ++ [u] ∧
    msg_Role u = "user" ∧ msg_Content u = "Hello".
Proof.
  apply (upstream_status_error "alice" "Hello" EmptyString
           (fun _ => Reply 500 [("overloaded", None)]) noFaults store _ _ 500).
  - reflexivity.
  - discriminate.
  - vm_compute. reflexivity.
Defined.

Lemma empty_reply_is_persisted_witness :
  ∃ conv u a,
    framesOf (hello (answers pingOnly)).2 = [startFrame conv; endFrame conv] ∧
    messages (hello (answers pingOnly)).1 = messages store ++ [u; a] ∧
    msg_Role u = "user" ∧ msg_Content u = "Hello" ∧
    msg_Role a = "assistant" ∧ msg_Content a = EmptyString ∧
    msg_ConversationID a = conv.
Proof.
  apply (empty_reply_is_persisted "alice" "Hello" EmptyString (answers pingOnly)
           noFaults store _ _ pingOnly).
  - reflexivity.
  - vm_compute. reflexivity.
  - reflexivity.
  - reflexivity.
  - vm_compute. reflexivity.
Defined.

Lemma message_to_foreign_conversation_witness :
  ∃ db' frames rows row,
    intrusion (answers twoDeltas) = (db', EventStream frames) ∧
    GetHistory "alice" "id-0" noFaults db' = JsonMessages rows ∧
    In row rows ∧ msg_Role row = "user" ∧ msg_Content row = "Hi Alice".
Proof.
  apply (message_to_foreign_conversation "bob" "alice" "Hi Alice"
           {| conv_ID := "id-0"; conv_UserID := "alice"; conv_Title := "Hello";
              conv_CreatedAt := 0; conv_UpdatedAt := 0 |}
           (answers twoDeltas) noFaults store); try discriminate; try reflexivity.
  simpl. auto.
Defined.

Lemma SendMessage_unknown_keys_witness :
  SendMessage "alice" (Some {| req_Message := "Hello"; req_ConversationID := "id-9" |})
    (answers twoDeltas) noFaults store
  = (store, HttpError (errorBody "Error saving message") 500).
Proof.
  refine (proj1 (SendMessage_unknown_keys "alice" "Hello" "id-9" (answers twoDeltas)
                   noFaults store _ _) _ _); try discriminate.
  intros c [<-|[]]. discriminate.
Defined.

Lemma history_grows_by_the_exchange_witness :
  ∃ conv prev u a,
    field "conversationId" (hd [] (framesOf (hello (answers twoDeltas)).2)) = Some conv ∧
    getConversationMessages false conv store = Some prev ∧
    getConversationMessages false conv (hello (answers twoDeltas)).1
      = Some (prev ++ [u; a]) ∧
    msg_Role u = "user" ∧ msg_Content u = "Hello" ∧
    msg_Role a = "assistant" ∧
    msg_Content a = forwardedText (framesOf (hello (answers twoDeltas)).2).
Proof.
  apply (history_grows_by_the_exchange "alice" "Hello" EmptyString (answers twoDeltas)
           noFaults store).
  - intros m [].
  - vm_compute. reflexivity.
  - vm_compute. reflexivity.
Defined.


Lemma GetHistory_returns_the_conversation_in_order_witness :
  Permutation
    [{| msg_ID := "id-1"; msg_ConversationID := "id-0"; msg_Role := "user";
        msg_Content := "Hi Alice"; msg_CreatedAt := 1 |};
     {| msg_ID := "id-2"; msg_ConversationID := "id-0"; msg_Role := "assistant";
        msg_Content := "Hi there"; msg_CreatedAt := 2 |}]
    (List.filter (fun m => String.eqb (msg_ConversationID m) "id-0")
       (messages (intrusion (answers twoDeltas)).1))
  ∧ StronglySorted earlier
      [{| msg_ID := "id-1"; msg_ConversationID := "id-0"; msg_Role := "user";
          msg_Content := "Hi Alice"; msg_CreatedAt := 1 |};
       {| msg_ID := "id-2"; msg_ConversationID := "id-0"; msg_Role := "assistant";
          msg_Content := "Hi there"; msg_CreatedAt := 2 |}].
Proof.
  apply (GetHistory_returns_the_conversation_in_order "alice" "id-0" noFaults
           (intrusion (answers twoDeltas)).1).
  vm_compute. reflexivity.
Defined.

End HandlersMore.

(** * Properties of the conversation list *)

Module ConversationsSpec.
Import Models Handlers Reading Conversations.
Local Open Scope list_scope.

Lemma insertByUpdatedAt_perm c l : Permutation (insertByUpdatedAt c l) (c :: l).
Proof.
  induction l as [|x l IH]; simpl; [done|].
  destruct (conv_UpdatedAt x <? conv_UpdatedAt c); [done|].
  rewrite IH. apply perm_swap.
Qed.

Lemma orderByUpdatedAtDesc_perm l : Permutation (orderByUpdatedAtDesc l) l.
Proof.
  unfold orderByUpdatedAtDesc.
  assert (∀ sorted,
            Permutation (fold_left (fun sorted c => insertByUpdatedAt c sorted) l sorted)
              (sorted ++ l)) as H; [|apply H].
  induction l as [|c l IH]; intros sorted; simpl; [by rewrite app_nil_r|].
  rewrite IH, insertByUpdatedAt_perm. simpl. apply Permutation_middle.
Qed.

Lemma insertByUpdatedAt_sorted c l :
  Sorted fresher l → Sorted fresher (insertByUpdatedAt c l).
Proof.
  induction l as [|x l IH]; intros Hs; simpl; [by repeat constructor|].
  destruct (conv_UpdatedAt x <? conv_UpdatedAt c) eqn:Hlt.
  - apply Z.ltb_lt in Hlt. constructor; [done|]. constructor. unfold fresher. lia.
  - apply Z.ltb_ge in Hlt. apply Sorted_inv in Hs as [Hs Hhd].
    constructor; [by apply IH|].
    destruct l as [|y l]; simpl; [by constructor|].
    destruct (conv_UpdatedAt y <? conv_UpdatedAt c); constructor; [done|].
    by apply HdRel_inv in Hhd.
Qed.

Lemma fresher_transitive : Transitive fresher.
Proof. intros a b c. unfold fresher. lia. Qed.

Lemma orderByUpdatedAtDesc_sorted l : StronglySorted fresher (orderByUpdatedAtDesc l).
Proof.
  apply Sorted_StronglySorted; [apply fresher_transitive|].
  unfold orderByUpdatedAtDesc.
  assert (∀ sorted, Sorted fresher sorted →
            Sorted fresher (fold_left (fun sorted c => insertByUpdatedAt c sorted) l sorted))
    as H; [|apply H; constructor].
  induction l as [|c l IH]; intros sorted Hs; simpl; [done|].
  by apply IH, insertByUpdatedAt_sorted.
Qed.

Lemma StronglySorted_split (l1 l2 : list Conversation) :
  StronglySorted fresher (l1 ++ l2) →
  StronglySorted fresher l1 ∧ ∀ a b, In a l1 → In b l2 → fresher a b.
Proof.
  induction l1 as [|x l1 IH]; simpl; intros Hs.
  - split; [constructor|]. intros a b [].
  - apply StronglySorted_inv in Hs as [Hs Hx]. destruct (IH Hs) as [Hs1 Hcross].
    split.
    + constructor; [done|]. rewrite List.Forall_forall in *. intros y Hy.
      apply Hx. apply in_or_app. by left.
    + intros a b [<-|Ha] Hb; [|by apply Hcross].
      rewrite List.Forall_forall in Hx. apply Hx. apply in_or_app. by right.
Qed.

Lemma collected userID (rows : list Conversation) : ∀ acc,
  Forall (fun c => conv_UserID c = userID) rows →
  fold_left
    (fun conversations row =>
       appendConversation conversations
         {| conv_ID := conv_ID row; conv_UserID := userID; conv_Title := conv_Title row;
            conv_CreatedAt := conv_CreatedAt row; conv_UpdatedAt := conv_UpdatedAt row |})
    rows acc
  = match rows with
    | [] => acc
    | _ => Some (match acc with Some l => l | None => [] end ++ rows)
    end.
Proof.
  induction rows as [|c rows IH]; intros acc Hall; [done|].
  apply Forall_cons_1 in Hall as [Hc Hall]. cbn [fold_left]. rewrite IH by done.
  assert ({| conv_ID := conv_ID c; conv_UserID := userID; conv_Title := conv_Title c;
             conv_CreatedAt := conv_CreatedAt c; conv_UpdatedAt := conv_UpdatedAt c |} = c)
    as -> by (destruct c; simpl in *; by subst).
  destruct rows as [|c' rows]; destruct acc as [l|]; simpl; try done.
  by rewrite <- app_assoc.
Qed.

(** X22.  For an authenticated subject [GetConversations] lists stored
    conversations of that subject only, at most 50 of them, the most
    recently updated first, and no owned conversation left out is fresher
    than a listed one; with 50 or fewer owned conversations all are listed.
    A subject without conversations receives [null], not an empty array. *)
Theorem GetConversations_lists_the_freshest_fifty userID db :
  userID ≠ EmptyString →
  ∃ listed,
    GetConversations userID false db = Listing listed ∧
    let owned := List.filter (fun c => String.eqb (conv_UserID c) userID)
                   (conversations db) in
    let rows := match listed with Some rows => rows | None => [] end in
    (listed = None ↔ owned = []) ∧
    (length rows <= 50)%nat ∧
    StronglySorted fresher rows ∧
    (∀ c, In c rows → In c (conversations db) ∧ conv_UserID c = userID) ∧
    (∀ c r, In c owned → ¬ In c rows → In r rows → fresher r c) ∧
    ((length owned <= 50)%nat → Permutation rows owned).
Proof.
  intros HU. unfold GetConversations, selectConversations.
  destruct (String.eqb_spec userID EmptyString); [done|].
  set (owned := List.filter _ (conversations db)).
  set (sorted := orderByUpdatedAtDesc owned).
  assert (Permutation sorted owned) as Hperm by apply orderByUpdatedAtDesc_perm.
  assert (StronglySorted fresher (firstn 50 sorted ++ skipn 50 sorted)) as Hsorted
    by (rewrite firstn_skipn; apply orderByUpdatedAtDesc_sorted).
  apply StronglySorted_split in Hsorted as [Hfirst Hcross].
  assert (∀ c, In c (firstn 50 sorted) → In c owned) as Hsub.
  { intros c Hc. apply (Permutation_in _ Hperm).
    rewrite <- (firstn_skipn 50 sorted). apply in_or_app. by left. }
  assert (Forall (fun c => conv_UserID c = userID) (firstn 50 sorted)) as Hown.
  { apply List.Forall_forall. intros c Hc. apply Hsub in Hc.
    apply filter_In in Hc as [_ Hc]. by apply String.eqb_eq. }
  eexists. split; [reflexivity|]. cbv zeta. rewrite (collected userID _ None Hown).
  assert (match
            match firstn 50 sorted with
            | [] => None
            | _ :: _ => Some ([] ++ firstn 50 sorted)
            end
          with Some rows => rows | None => [] end = firstn 50 sorted) as ->
    by (by destruct (firstn 50 sorted)).
  split; [|split; [|split; [|split; [|split]]]].
  - split.
    + intros Hnone. destruct (firstn 50 sorted) eqn:Hf; [|done].
      destruct sorted as [|x sorted']; [|done].
      by apply Permutation_nil in Hperm.
    + intros Hnil. fold owned in Hnil. rewrite Hnil in Hperm.
      apply Permutation_sym, Permutation_nil in Hperm. by rewrite Hperm.
  - rewrite length_firstn. lia.
  - done.
  - intros c Hc. split.
    + apply Hsub in Hc. by apply filter_In in Hc as [Hc _].
    + rewrite List.Forall_forall in Hown. by apply Hown.
  - intros c r Hc Hnot Hr. apply Hcross; [done|].
    apply (Permutation_in _ (Permutation_sym Hperm)) in Hc.
    rewrite <- (firstn_skipn 50 sorted) in Hc. apply in_app_or in Hc as [|]; done.
  - intros Hlen. rewrite firstn_all2; [done|].
    by rewrite (Permutation_length Hperm).
Qed.

Lemma GetConversations_lists_the_freshest_fifty_witness :
  ∃ listed,
    GetConversations "alice" false (Scenes.hello (Inputs.answers Scenes.twoDeltas)).1
      = Listing listed ∧
    let owned := List.filter (fun c => String.eqb (conv_UserID c) "alice")
                   (conversations (Scenes.hello (Inputs.answers Scenes.twoDeltas)).1) in
    let rows := match listed with Some rows => rows | None => [] end in
    (listed = None ↔ owned = []) ∧
    (length rows <= 50)%nat ∧
    StronglySorted fresher rows ∧
    (∀ c, In c rows →
          In c (conversations (Scenes.hello (Inputs.answers Scenes.twoDeltas)).1)
          ∧ conv_UserID c = "alice") ∧
    (∀ c r, In c owned → ¬ In c rows → In r rows → fresher r c) ∧
    ((length owned <= 50)%nat → Permutation rows owned).
Proof.
  apply (GetConversations_lists_the_freshest_fifty "alice"
           (Scenes.hello (Inputs.answers Scenes.twoDeltas)).1).
  discriminate.
Defined.

End ConversationsSpec.

(** * Properties of the chat route *)

Module RouterSpec.
Import Middleware Models Handlers Auth Router MiddlewareSpec.
Local Open Scope list_scope.

Section Routes.
Context `{golib : GoLib} `{authlib : AuthLib}.

Lemma SendMessage_changes userID body upstream faults db :
  (SendMessage userID body upstream faults db).1 ≠ db →
  userID ≠ EmptyString ∧ ∃ req, body = Some req ∧ req_Message req ≠ EmptyString.
Proof.
  unfold SendMessage. destruct (String.eqb_spec userID EmptyString); [done|].
  destruct body as [req|]; [|done].
  destruct (String.eqb_spec (req_Message req) EmptyString); [done|]. eauto.
Qed.

(** X23.  A request to the chat route that [AuthMiddleware] does not pass
    on is answered with status 401 and changes neither the limiter's map
    nor the store: it does not count against the client's rate limit. *)
Theorem unauthenticated_request_changes_nothing jwtSecret now ip authHeader body upstream
    faults visitors db :
  (∀ userID, AuthMiddleware jwtSecret (unix now) authHeader ≠ Next userID) →
  ∃ answer,
    postChat jwtSecret now ip authHeader body upstream faults visitors db
    = (visitors, db, HttpError answer 401).
Proof.
  intros Hno. unfold postChat.
  destruct (AuthMiddleware jwtSecret (unix now) authHeader) as [b status|userID] eqn:Hauth.
  - apply AuthSpec.AuthMiddleware_Answered in Hauth as ->. by exists b.
  - by destruct (Hno userID).
Qed.

(** X24.  An authenticated request that the chat limiter denies is
    answered with the 429 response; [SendMessage] is not run, and the store
    and the limiter's map stay as they were. *)
Theorem limited_request_changes_nothing jwtSecret now ip authHeader body upstream faults
    visitors db userID :
  AuthMiddleware jwtSecret (unix now) authHeader = Next userID →
  (limiter Chat now ip visitors).2 = false →
  postChat jwtSecret now ip authHeader body upstream faults visitors db
  = (visitors, db, tooManyRequests).
Proof.
  intros Hauth Hdenied. unfold postChat. rewrite Hauth.
  destruct (limiter Chat now ip visitors) as [vs1 ok] eqn:Hlim. simpl in Hdenied.
  subst ok. unfold limiter in Hlim. by apply RateLimiter_denied in Hlim as ->.
Qed.

(** X25.  The chat route changes the store only for a request that carries
    a token with a non-empty user id, is admitted by the chat limiter and
    holds a non-empty message. *)
Theorem store_changes_need_token_budget_and_message jwtSecret now ip authHeader body
    upstream faults visitors db :
  (postChat jwtSecret now ip authHeader body upstream faults visitors db).1.2 ≠ db →
  ∃ userID req,
    AuthMiddleware jwtSecret (unix now) authHeader = Next userID ∧
    userID ≠ EmptyString ∧
    (limiter Chat now ip visitors).2 = true ∧
    body = Some req ∧ req_Message req ≠ EmptyString.
Proof.
  unfold postChat.
  destruct (AuthMiddleware jwtSecret (unix now) authHeader) as [b status|userID]; [done|].
  destruct (limiter Chat now ip visitors) as [vs1 ok]. destruct ok; [|done].
  destruct (SendMessage _ body upstream faults db) as [db1 response] eqn:Hsend.
  cbn [fst snd]. intros Hchanged.
  destruct (SendMessage_changes (GetUserID (Some userID)) body upstream faults db)
    as (HU & req & -> & HM); [by rewrite Hsend|].
  by exists userID, req.
Qed.

End Routes.
Lemma unauthenticated_request_changes_nothing_witness :
  ∃ answer,
    postChat "k" 0 "10.0.0.1:5000" "Token abc"
      (Some {| req_Message := "Hello"; req_ConversationID := EmptyString |})
      (Inputs.answers Scenes.twoDeltas) noFaults ∅ Inputs.store
    = (∅, Inputs.store, HttpError answer 401).
Proof.
  apply (unauthenticated_request_changes_nothing "k" 0 "10.0.0.1:5000" "Token abc").
  intros userID. vm_compute. discriminate.
Defined.

Lemma limited_request_changes_nothing_witness :
  postChat "k" 5 "10.0.0.1:5000" "Bearer k.alice"
    (Some {| req_Message := "Hello"; req_ConversationID := EmptyString |})
    (Inputs.answers Scenes.twoDeltas) noFaults Scenes.exhausted Inputs.store
  = (Scenes.exhausted, Inputs.store, tooManyRequests).
Proof.
  apply (limited_request_changes_nothing "k" 5 "10.0.0.1:5000" "Bearer k.alice" _ _ _ _ _
           "alice").
  - vm_compute. reflexivity.
  - vm_compute. reflexivity.
Defined.

Lemma store_changes_need_token_budget_and_message_witness :
  ∃ userID req,
    AuthMiddleware "k" (unix 5) "Bearer k.alice" = Next userID ∧
    userID ≠ EmptyString ∧
    (limiter Chat 5 "10.0.0.1:5000" ∅).2 = true ∧
    Some {| req_Message := "Hello"; req_ConversationID := EmptyString |} = Some req ∧
    req_Message req ≠ EmptyString.
Proof.
  apply (store_changes_need_token_budget_and_message "k" 5 "10.0.0.1:5000"
           "Bearer k.alice" _ (Inputs.answers Scenes.twoDeltas) noFaults ∅ Inputs.store).
  vm_compute. discriminate.
Defined.

End RouterSpec.
